(** * Fingerprinting of the generic device plugin (device/fingerprint.go)

    A shallow embedding of [doFingerprint], [writeFingerprintToChannel] and
    [deviceGroupFromFingerprintData], and the properties of the discovery,
    grouping and detection loop proved on it.

    Go maps are [gmap]s; the order in which [range] visits a map is not
    fixed by the language and is a parameter [range_order] of the model.
    A goroutine's interaction with its context, timer and channel is a
    list of events, driven by the outcome of each [select]. *)

From Stdlib Require Import Ascii.
From stdpp Require Import gmap strings list pretty.

Local Open Scope Z_scope.

(** ** Data model *)

(** Modelled from the spec: the declaration of the configured device is not
    in fingerprint.go.  The fields are the ones the source reads
    ([configuredDevice.Type], [.Vendor], [.Model], [.Count]); [Count] is
    compared with the [int] loop variable [deviceIndex], so it is a Go
    [int], here a [Z]. *)
Record ConfiguredDevice := {
  cd_Type : string;
  cd_Vendor : string;
  cd_Model : string;
  cd_Count : Z
}.

(** Modelled from the spec: the declaration of [GenericDevice] is not in
    fingerprint.go either; the composite literal of the source sets
    [Type], [Vendor] and [Model]. *)
Record GenericDevice := {
  gd_Type : string;
  gd_Vendor : string;
  gd_Model : string
}.

(** [type fingerprintedDevice struct { ID string; device GenericDevice }] *)
Record fingerprintedDevice := {
  ID : string;
  device : GenericDevice
}.

(** [device.Device] of the Nomad plugin API, with the three fields the
    source sets.  [HwLocality] is a pointer: [None] is [nil]. *)
Record DeviceLocality := { PciBusID : string }.

Record Device := {
  dev_ID : string;
  Healthy : bool;
  HwLocality : option DeviceLocality
}.

(** [device.DeviceGroup]; the source leaves [Attributes] unset. *)
Record DeviceGroup := {
  Vendor : string;
  Type_ : string;
  Name : string;
  Devices : list Device
}.

(** [device.FingerprintResponse] of the Nomad plugin API.  The slice holds
    pointers to groups, and [deviceGroupFromFingerprintData] may return
    [nil]: an element is an [option].  [device.NewFingerprint] stores its
    arguments in [Devices] and leaves [Error] nil. *)
Record FingerprintResponse := {
  fr_Devices : list (option DeviceGroup);
  fr_Error : option string
}.

Definition NewFingerprint (groups : list (option DeviceGroup)) : FingerprintResponse :=
  {| fr_Devices := groups; fr_Error := None |}.

(** The fields of [GenericDevicePlugin] that fingerprinting uses.  The
    logger shows as [LogInfo] events; [deviceLock] is held for the whole of
    [writeFingerprintToChannel], which is modelled as one atomic step. *)
Record GenericDevicePlugin := {
  configuredDevices : list ConfiguredDevice;
  identifiedDevices : gmap string GenericDevice;
  fingerprintPeriod : Z
}.

(** What the goroutine does to the outside, in program order. *)
Inductive event :=
| NewTimer (d : Z)
| TimerReset (d : Z)
| LogInfo (msg : string) (count : nat)
| ChanSend (r : FingerprintResponse)
| ChanClose.

(** The case a [select] of [doFingerprint] takes. *)
Inductive select_case :=
| ctx_Done
| ticker_C.

#[global] Instance GenericDevice_eq_dec : EqDecision GenericDevice.
Proof. solve_decision. Defined.
#[global] Instance fingerprintedDevice_eq_dec : EqDecision fingerprintedDevice.
Proof. solve_decision. Defined.

(** ** Discovery *)

(** [fmt.Sprintf("%s/%s/%s/%d", ty, vendor, model, index)] *)
Definition Sprintf_ID (ty vendor model : string) (index : Z) : string :=
  ty +:+ "/" +:+ vendor +:+ "/" +:+ model +:+ "/" +:+ pretty index.

(** The element appended at fingerprint.go:54-61. *)
Definition newFingerprintedDevice (c : ConfiguredDevice) (deviceIndex : Z) : fingerprintedDevice :=
  {| ID := Sprintf_ID (cd_Type c) (cd_Vendor c) (cd_Model c) deviceIndex;
     device := {| gd_Type := cd_Type c; gd_Vendor := cd_Vendor c; gd_Model := cd_Model c |} |}.

(** [count := configuredDevice.Count; if count == 0 { count = 1 }] *)
Definition effectiveCount (c : ConfiguredDevice) : Z :=
  if decide (cd_Count c = 0) then 1 else cd_Count c.

(** The inner loop [for deviceIndex := 0; deviceIndex < count; deviceIndex++]:
    [seqZ 0 count] is the list of values [deviceIndex] takes, empty when
    [count <= 0]. *)
Definition discoverOne (discoveredDevices : list fingerprintedDevice) (c : ConfiguredDevice)
  : list fingerprintedDevice :=
  foldl (λ acc deviceIndex, acc ++ [newFingerprintedDevice c deviceIndex])
        discoveredDevices (seqZ 0 (effectiveCount c)).

(** The outer loop over [d.configuredDevices], fingerprint.go:46-63. *)
Definition discover (configured : list ConfiguredDevice) : list fingerprintedDevice :=
  foldl discoverOne [] configured.

(** ** Grouping *)

(** One iteration of the loop at fingerprint.go:73-77:
    the bucket of the device's model gets the device appended ([append] on
    the [nil] slice of a missing key starts a new one), and the cache gets
    the device under its ID. *)
Definition groupStep (acc : gmap string (list fingerprintedDevice) * gmap string GenericDevice)
    (dev : fingerprintedDevice)
  : gmap string (list fingerprintedDevice) * gmap string GenericDevice :=
  let deviceName := gd_Model (device dev) in
  (<[deviceName := default [] (acc.1 !! deviceName) ++ [dev]]> acc.1,
   <[ID dev := device dev]> acc.2).

Definition groupDevices (discoveredDevices : list fingerprintedDevice)
    (identified : gmap string GenericDevice)
  : gmap string (list fingerprintedDevice) * gmap string GenericDevice :=
  foldl groupStep (∅, identified) discoveredDevices.

(** The [device.Device] literal of fingerprint.go:98-102. *)
Definition deviceSummary (dev : fingerprintedDevice) : Device :=
  {| dev_ID := ID dev; Healthy := true; HwLocality := None |}.

(** [deviceGroupFromFingerprintData], fingerprint.go:90-131.  [None] is the
    [nil] it returns for an empty list. *)
Definition deviceGroupFromFingerprintData (groupName : string) (deviceList : list fingerprintedDevice)
  : option DeviceGroup :=
  match deviceList with
  | [] => None
  | first :: _ =>
      let devices :=
        foldl (λ acc dev, acc ++ [deviceSummary dev]) [] deviceList in
      Some {| Vendor := gd_Vendor (device first);
              Type_ := gd_Type (device first);
              Name := groupName;
              Devices := devices |}
  end.

Section Fingerprint.
(** The order in which [range] visits the entries of a map. *)
Variable range_order :
  gmap string (list fingerprintedDevice) → list (string * list fingerprintedDevice).

(** The loop at fingerprint.go:80-83. *)
Definition buildGroups (deviceListByDeviceName : gmap string (list fingerprintedDevice))
  : list (option DeviceGroup) :=
  foldl (λ acc entry, acc ++ [deviceGroupFromFingerprintData entry.1 entry.2])
        [] (range_order deviceListByDeviceName).

(** [writeFingerprintToChannel]: the plugin afterwards and the events of
    the call. *)
Definition writeFingerprintToChannel (d : GenericDevicePlugin)
  : GenericDevicePlugin * list event :=
  if decide (size (identifiedDevices d) = 0%nat) then
    let discoveredDevices := discover (configuredDevices d) in
    let '(deviceListByDeviceName, identified) :=
      groupDevices discoveredDevices (identifiedDevices d) in
    let deviceGroups := buildGroups deviceListByDeviceName in
    ({| configuredDevices := configuredDevices d;
        identifiedDevices := identified;
        fingerprintPeriod := fingerprintPeriod d |},
     [LogInfo "Found devices" (length discoveredDevices);
      ChanSend (NewFingerprint deviceGroups)])
  else (d, []).

(** The [for] loop of [doFingerprint], driven by the case each [select]
    takes.  The result tells whether the function has returned; when the
    list of cases runs out the goroutine is waiting in [select]. *)
Fixpoint fingerprintLoop (cases : list select_case) (d : GenericDevicePlugin)
  : GenericDevicePlugin * list event * bool :=
  match cases with
  | [] => (d, [], false)
  | ctx_Done :: _ => (d, [], true)
  | ticker_C :: cases' =>
      let '(d1, evs1) := writeFingerprintToChannel d in
      let '(d2, evs2, returned) := fingerprintLoop cases' d1 in
      (d2, TimerReset (fingerprintPeriod d) :: evs1 ++ evs2, returned)
  end.

(** [doFingerprint]: the timer is created, the loop runs, and the
    deferred [close(devices)] runs when the function returns. *)
Definition doFingerprint (cases : list select_case) (d : GenericDevicePlugin)
  : GenericDevicePlugin * list event * bool :=
  let '(d', evs, returned) := fingerprintLoop cases d in
  (d', NewTimer 0 :: evs ++ (if returned then [ChanClose] else []), returned).
End Fingerprint.

(** A [range] order one can run: the order of [map_to_list]. *)
Definition range_sorted (m : gmap string (list fingerprintedDevice))
  : list (string * list fingerprintedDevice) := map_to_list m.

Definition newPlugin (configured : list ConfiguredDevice) (period : Z) : GenericDevicePlugin :=
  {| configuredDevices := configured; identifiedDevices := ∅; fingerprintPeriod := period |}.

Definition scenario1 : list ConfiguredDevice :=
  [ {| cd_Type := "gpu"; cd_Vendor := "nvidia"; cd_Model := "a100"; cd_Count := 2 |} ].


(** ** Quantities the statements are written with *)

(** The sum over the configured list of [max(Count, 1)]. *)
Definition expectedTotal (configured : list ConfiguredDevice) : Z :=
  foldr (λ c acc, Z.max (cd_Count c) 1 + acc) 0 configured.

(** The devices one entry stands for, in increasing index order. *)
Definition expand (c : ConfiguredDevice) : list fingerprintedDevice :=
  newFingerprintedDevice c <$> seqZ 0 (Z.max (cd_Count c) 1).

(** The part of an ID before the last separator. *)
Definition idPrefix (c : ConfiguredDevice) : string :=
  cd_Type c +:+ "/" +:+ cd_Vendor c +:+ "/" +:+ cd_Model c.

Fixpoint slash_free (s : string) : bool :=
  match s with
  | EmptyString => true
  | String c r => if decide (c = "/"%char) then false else slash_free r
  end.

Definition nonNegativeCounts (configured : list ConfiguredDevice) : Prop :=
  Forall (λ c, 0 ≤ cd_Count c) configured.

(** The devices of a list whose model is [name], in the order of the list. *)
Definition bucketOf (name : string) (l : list fingerprintedDevice) : list fingerprintedDevice :=
  filter (λ dev, gd_Model (device dev) = name) l.

(** The devices of a list whose ID is [id], in the order of the list. *)
Definition bearers (id : string) (l : list fingerprintedDevice) : list fingerprintedDevice :=
  filter (λ dev, ID dev = id) l.

(** The members of all groups of a response. *)
Definition memberCount (r : FingerprintResponse) : nat :=
  sum_list_with (λ g, from_option (λ g, length (Devices g)) 0%nat g) (fr_Devices r).

(** The devices held by all buckets of a map. *)
Definition bucketTotal (m : gmap string (list fingerprintedDevice)) : nat :=
  sum_list_with (λ e, length e.2) (map_to_list m).

(** The responses a list of events puts on the channel, in order. *)
Definition snapshots (evs : list event) : list FingerprintResponse :=
  omap (λ e, match e with ChanSend r => Some r | _ => None end) evs.

(** What [range] may do: every entry of the map is visited once. *)
Definition range_valid
    (range_order : gmap string (list fingerprintedDevice) → list (string * list fingerprintedDevice))
  : Prop :=
  ∀ m, range_order m ≡ₚ map_to_list m.

(** The plugin at the start of each of [n] consecutive detection steps. *)
Fixpoint detectionStates
    (range_order : gmap string (list fingerprintedDevice) → list (string * list fingerprintedDevice))
    (n : nat) (d : GenericDevicePlugin) : list GenericDevicePlugin :=
  match n with
  | O => []
  | S n' => d :: detectionStates range_order n' (writeFingerprintToChannel range_order d).1
  end.

(** The plugin after [n] consecutive detection steps. *)
Fixpoint afterDetections
    (range_order : gmap string (list fingerprintedDevice) → list (string * list fingerprintedDevice))
    (n : nat) (d : GenericDevicePlugin) : GenericDevicePlugin :=
  match n with
  | O => d
  | S n' => afterDetections range_order n' (writeFingerprintToChannel range_order d).1
  end.

(** The events of one iteration of the loop of [doFingerprint] that takes
    the timer case with the plugin in state [di]. *)
Definition iterationEvents
    (range_order : gmap string (list fingerprintedDevice) → list (string * list fingerprintedDevice))
    (period : Z) (di : GenericDevicePlugin) : list event :=
  TimerReset period :: (writeFingerprintToChannel range_order di).2.

Definition is_timer_op (e : event) : bool :=
  match e with
  | NewTimer _ | TimerReset _ => true
  | _ => false
  end.

(** What a list of events does to the timer, in order. *)
Definition timerOps (evs : list event) : list event :=
  filter (λ e, is_timer_op e = true) evs.

(** Scenario 1 after its first detection step, and what that step sends. *)
Definition scenario1_discovered : GenericDevicePlugin :=
  (writeFingerprintToChannel range_sorted (newPlugin scenario1 30)).1.

Definition scenario1_group : DeviceGroup :=
  {| Vendor := "nvidia"; Type_ := "gpu"; Name := "a100";
     Devices := [ {| dev_ID := "gpu/nvidia/a100/0"; Healthy := true; HwLocality := None |};
                  {| dev_ID := "gpu/nvidia/a100/1"; Healthy := true; HwLocality := None |} ] |}.

Definition scenario1_response : FingerprintResponse :=
  NewFingerprint [Some scenario1_group].

Definition scenario2 : list ConfiguredDevice :=
  [ {| cd_Type := "gpu"; cd_Vendor := "nvidia"; cd_Model := "a100"; cd_Count := 0 |} ].

Definition scenario3 : list ConfiguredDevice :=
  [ {| cd_Type := "t1"; cd_Vendor := "v1"; cd_Model := "m"; cd_Count := 1 |};
    {| cd_Type := "t2"; cd_Vendor := "v2"; cd_Model := "m"; cd_Count := 1 |} ].

(** Two entries with the same type, vendor and model. *)
Definition repeatedEntry : list ConfiguredDevice :=
  [ {| cd_Type := "gpu"; cd_Vendor := "nvidia"; cd_Model := "a100"; cd_Count := 1 |};
    {| cd_Type := "gpu"; cd_Vendor := "nvidia"; cd_Model := "a100"; cd_Count := 1 |} ].

(** Two entries that differ in type and vendor and build the same ID. *)
Definition slashEntries : list ConfiguredDevice :=
  [ {| cd_Type := "a/b"; cd_Vendor := "c"; cd_Model := "d"; cd_Count := 1 |};
    {| cd_Type := "a"; cd_Vendor := "b/c"; cd_Model := "d"; cd_Count := 1 |} ].

(** The devices one entry adds to the discovered list, whatever its count. *)
Definition generated (c : ConfiguredDevice) : list fingerprintedDevice :=
  newFingerprintedDevice c <$> seqZ 0 (effectiveCount c).

(** The names of the groups of a response, in order. *)
Definition groupNames (r : FingerprintResponse) : list string :=
  omap (fmap Name) (fr_Devices r).

(** The device summaries of all groups of a response, group after group. *)
Definition memberSummaries (r : FingerprintResponse) : list Device :=
  fr_Devices r ≫= from_option Devices [].

(** The devices of all buckets of a map. *)
Definition bucketContents (m : gmap string (list fingerprintedDevice))
  : list fingerprintedDevice :=
  map_to_list m ≫= snd.

(** Two events that differ at most in the order of the groups of a response. *)
Definition same_up_to_group_order (e1 e2 : event) : Prop :=
  match e1, e2 with
  | ChanSend r1, ChanSend r2 => fr_Devices r1 ≡ₚ fr_Devices r2 ∧ fr_Error r1 = fr_Error r2
  | _, _ => e1 = e2
  end.

(** Another [range] order one can run: [map_to_list] backwards. *)
Definition range_reversed (m : gmap string (list fingerprintedDevice))
  : list (string * list fingerprintedDevice) := reverse (map_to_list m).

(** An entry with a negative count between two ordinary ones. *)
Definition negativeEntry : list ConfiguredDevice :=
  [ {| cd_Type := "gpu"; cd_Vendor := "nvidia"; cd_Model := "a100"; cd_Count := 2 |};
    {| cd_Type := "gpu"; cd_Vendor := "amd"; cd_Model := "mi300"; cd_Count := -3 |};
    {| cd_Type := "fpga"; cd_Vendor := "xilinx"; cd_Model := "u250"; cd_Count := 0 |} ].

(** Only negative counts. *)
Definition onlyNegative : list ConfiguredDevice :=
  [ {| cd_Type := "gpu"; cd_Vendor := "amd"; cd_Model := "mi300"; cd_Count := -3 |};
    {| cd_Type := "gpu"; cd_Vendor := "amd"; cd_Model := "mi250"; cd_Count := -1 |} ].

(** * Proofs *)

(** ** Loops that append *)

Lemma foldl_snoc_fmap {A B} (f : A → B) (l : list A) (acc : list B) :
  foldl (λ acc x, acc ++ [f x]) acc l = acc ++ (f <$> l).
Proof.
  revert acc. induction l as [|x l IH]; intros acc; simpl.
  - by rewrite app_nil_r.
  - rewrite IH. by rewrite <-app_assoc.
Qed.

Lemma effectiveCount_max c : 0 ≤ cd_Count c → effectiveCount c = Z.max (cd_Count c) 1.
Proof. intros. unfold effectiveCount. case_decide; lia. Qed.

Lemma discoverOne_app acc c :
  discoverOne acc c = acc ++ (newFingerprintedDevice c <$> seqZ 0 (effectiveCount c)).
Proof. apply foldl_snoc_fmap. Qed.

Lemma discoverOne_expand acc c : 0 ≤ cd_Count c → discoverOne acc c = acc ++ expand c.
Proof. intros. rewrite discoverOne_app. unfold expand. by rewrite effectiveCount_max. Qed.

Lemma foldl_discoverOne acc configured :
  nonNegativeCounts configured →
  foldl discoverOne acc configured = acc ++ (configured ≫= expand).
Proof.
  intros Hc. revert acc. induction Hc as [|c l Hc _ IH]; intros acc; simpl.
  - by rewrite app_nil_r.
  - rewrite IH, discoverOne_expand by done. by rewrite <-app_assoc.
Qed.

Lemma discover_bind configured :
  nonNegativeCounts configured → discover configured = configured ≫= expand.
Proof. intros. unfold discover. by rewrite foldl_discoverOne. Qed.

Lemma length_expand c : Z.of_nat (length (expand c)) = Z.max (cd_Count c) 1.
Proof. unfold expand. rewrite length_fmap, length_seqZ. lia. Qed.

Lemma length_discover configured :
  nonNegativeCounts configured →
  Z.of_nat (length (discover configured)) = expectedTotal configured.
Proof.
  intros Hc. rewrite discover_bind by done. clear Hc.
  induction configured as [|c l IH]; [done|].
  rewrite bind_cons, length_app, Nat2Z.inj_add, IH, length_expand. done.
Qed.

(** ** The strings [Sprintf] builds *)

Lemma append_nil_l (s : string) : "" +:+ s = s.
Proof. reflexivity. Qed.

Lemma append_cons (c : ascii) (s t : string) : String c s +:+ t = String c (s +:+ t).
Proof. reflexivity. Qed.

Lemma append_assoc (s1 s2 s3 : string) : (s1 +:+ s2) +:+ s3 = s1 +:+ s2 +:+ s3.
Proof.
  induction s1 as [|c s1 IH]; [done|].
  rewrite !append_cons. by rewrite IH.
Qed.

Lemma Sprintf_ID_prefix c i :
  ID (newFingerprintedDevice c i) = idPrefix c +:+ "/" +:+ pretty i.
Proof. simpl. unfold Sprintf_ID, idPrefix. by rewrite !append_assoc. Qed.

Lemma slash_free_app_slash p d : slash_free (p +:+ String "/" d) = false.
Proof.
  induction p as [|c p IH].
  - done.
  - rewrite append_cons. simpl. by case_decide.
Qed.

Lemma last_slash_split p1 p2 d1 d2 :
  slash_free d1 = true → slash_free d2 = true →
  p1 +:+ String "/" d1 = p2 +:+ String "/" d2 → p1 = p2 ∧ d1 = d2.
Proof.
  revert p2. induction p1 as [|c1 p1 IH]; intros [|c2 p2] H1 H2 Heq;
    rewrite ?append_nil_l, ?append_cons in Heq.
  - by injection Heq as ->.
  - injection Heq as <- ->. by rewrite slash_free_app_slash in H1.
  - injection Heq as -> <-. by rewrite slash_free_app_slash in H2.
  - injection Heq as -> Heq. destruct (IH p2 H1 H2 Heq) as [-> ->]. done.
Qed.

Lemma slash_free_digit x s : slash_free (String (pretty_N_char x) s) = slash_free s.
Proof. simpl. case_decide as H; [|done]. unfold pretty_N_char in H. by repeat case_match. Qed.

Lemma slash_free_pretty_N_go x s : slash_free s = true → slash_free (pretty_N_go x s) = true.
Proof.
  revert s. induction (N.lt_wf_0 x) as [x _ IH]; intros s Hs.
  destruct (decide (x = 0%N)) as [->|Hx].
  - by rewrite pretty_N_go_0.
  - rewrite pretty_N_go_step by lia. apply IH.
    + apply N.div_lt; lia.
    + by rewrite slash_free_digit.
Qed.

Lemma slash_free_pretty_N (x : N) : slash_free (pretty x) = true.
Proof.
  unfold pretty, pretty_N. case_decide; [done|]. by apply slash_free_pretty_N_go.
Qed.

Lemma slash_free_pretty_Z (x : Z) : slash_free (pretty x) = true.
Proof.
  destruct x as [|p|p]; [done|..].
  - apply (slash_free_pretty_N (N.pos p)).
  - change (slash_free (String "-" (pretty (N.pos p))) = true). simpl.
    apply (slash_free_pretty_N (N.pos p)).
Qed.

Lemma Sprintf_ID_inj c1 i1 c2 i2 :
  ID (newFingerprintedDevice c1 i1) = ID (newFingerprintedDevice c2 i2) →
  idPrefix c1 = idPrefix c2 ∧ i1 = i2.
Proof.
  rewrite !Sprintf_ID_prefix. intros Heq.
  apply last_slash_split in Heq as [Hp Hd]; auto using slash_free_pretty_Z.
  split; [done|]. by apply (inj pretty).
Qed.

(** ** Grouping *)

Lemma groupStep_fold_buckets l b cache name :
  (foldl groupStep (b, cache) l).1 !! name =
    if decide (bucketOf name l = []) then b !! name
    else Some (default [] (b !! name) ++ bucketOf name l).
Proof.
  revert b cache. induction l as [|x l IH]; intros b cache.
  - done.
  - cbn [foldl]. unfold groupStep at 2. cbn [fst snd]. rewrite IH. clear IH.
    unfold bucketOf. rewrite filter_cons.
    destruct (decide (gd_Model (device x) = name)) as [->|Hne].
    + rewrite lookup_insert_eq. simpl.
      case_decide as H; [by rewrite H | by rewrite <-app_assoc].
    + rewrite lookup_insert_ne by done. done.
Qed.

Lemma groupStep_fold_cache l b cache id :
  (foldl groupStep (b, cache) l).2 !! id =
    match last (bearers id l) with
    | Some dev => Some (device dev)
    | None => cache !! id
    end.
Proof.
  revert b cache. induction l as [|x l IH]; intros b cache.
  - done.
  - cbn [foldl]. unfold groupStep at 2. cbn [fst snd]. rewrite IH. clear IH.
    unfold bearers. rewrite filter_cons.
    destruct (decide (ID x = id)) as [->|Hne].
    + rewrite lookup_insert_eq.
      rewrite last_cons. by destruct (last (filter _ l)).
    + by rewrite lookup_insert_ne.
Qed.

Lemma groupDevices_buckets l cache name ds :
  (groupDevices l cache).1 !! name = Some ds ↔ ds = bucketOf name l ∧ ds ≠ [].
Proof.
  unfold groupDevices. rewrite groupStep_fold_buckets, lookup_empty. simpl.
  case_decide as H; split.
  - done.
  - intros [-> ?]. done.
  - intros [= <-]. done.
  - intros [-> _]. done.
Qed.

Lemma bucketOf_model name l : Forall (λ dev, gd_Model (device dev) = name) (bucketOf name l).
Proof.
  apply Forall_forall. intros dev Hin. unfold bucketOf in Hin.
  by apply list_elem_of_filter in Hin as [? _].
Qed.

Lemma deviceGroupFromFingerprintData_cons name first rest :
  deviceGroupFromFingerprintData name (first :: rest) =
    Some {| Vendor := gd_Vendor (device first); Type_ := gd_Type (device first);
            Name := name; Devices := deviceSummary <$> first :: rest |}.
Proof. unfold deviceGroupFromFingerprintData. by rewrite foldl_snoc_fmap. Qed.

Lemma bucketTotal_insert m k x :
  bucketTotal (<[k := default [] (m !! k) ++ [x]]> m) = S (bucketTotal m).
Proof.
  unfold bucketTotal. destruct (m !! k) as [old|] eqn:Hk; simpl.
  - rewrite <-insert_delete_eq.
    rewrite map_to_list_insert by apply lookup_delete_eq.
    rewrite <-(map_to_list_delete m k old Hk). simpl.
    rewrite length_app. simpl. lia.
  - rewrite map_to_list_insert by done. done.
Qed.

Lemma bucketTotal_fold l b cache :
  bucketTotal (foldl groupStep (b, cache) l).1 = (bucketTotal b + length l)%nat.
Proof.
  revert b cache. induction l as [|x l IH]; intros b cache.
  - simpl. lia.
  - cbn [foldl]. unfold groupStep at 2. cbn [fst snd]. rewrite IH, bucketTotal_insert.
    simpl. lia.
Qed.

Lemma bucketTotal_groupDevices l cache : bucketTotal (groupDevices l cache).1 = length l.
Proof.
  unfold groupDevices. rewrite bucketTotal_fold. unfold bucketTotal.
  by rewrite map_to_list_empty.
Qed.

Lemma length_group name ds :
  from_option (λ g, length (Devices g)) 0%nat (deviceGroupFromFingerprintData name ds) = length ds.
Proof.
  destruct ds as [|first rest]; [done|].
  rewrite deviceGroupFromFingerprintData_cons. simpl. by rewrite length_fmap.
Qed.

(** ** Distinct IDs *)

Lemma elem_of_expand c dev :
  dev ∈ expand c ↔ ∃ i, 0 ≤ i < Z.max (cd_Count c) 1 ∧ dev = newFingerprintedDevice c i.
Proof.
  unfold expand. rewrite list_elem_of_fmap. setoid_rewrite elem_of_seqZ.
  split; intros (i & ? & ?); exists i; split; try done; lia.
Qed.

Lemma elem_of_discover configured dev :
  nonNegativeCounts configured →
  dev ∈ discover configured ↔
    ∃ c i, c ∈ configured ∧ 0 ≤ i < Z.max (cd_Count c) 1 ∧ dev = newFingerprintedDevice c i.
Proof.
  intros Hc. rewrite discover_bind by done. rewrite list_elem_of_bind.
  setoid_rewrite elem_of_expand. split.
  - intros (c & (i & Hi & ->) & Hin). by exists c, i.
  - intros (c & i & Hin & Hi & ->). exists c. split; [by exists i|done].
Qed.

Lemma expand_ID_NoDup c : NoDup (ID <$> expand c).
Proof.
  unfold expand. rewrite <-list_fmap_compose.
  apply NoDup_fmap_2_strong; [|apply NoDup_seqZ].
  intros i j _ _ Heq. by apply Sprintf_ID_inj in Heq as [_ ?].
Qed.

Lemma bind_expand_ID_NoDup configured :
  NoDup (idPrefix <$> configured) → NoDup (ID <$> (configured ≫= expand)).
Proof.
  induction configured as [|c l IH]; [constructor|].
  rewrite fmap_cons, NoDup_cons. intros [Hfresh Hl].
  rewrite bind_cons, fmap_app. apply NoDup_app. split_and!.
  - apply expand_ID_NoDup.
  - intros id (dev1 & -> & Hin1)%list_elem_of_fmap (dev2 & Heq & Hin2)%list_elem_of_fmap.
    apply elem_of_expand in Hin1 as (i & _ & ->).
    apply list_elem_of_bind in Hin2 as (c' & Hin2 & Hc').
    apply elem_of_expand in Hin2 as (j & _ & ->).
    apply Sprintf_ID_inj in Heq as [Hp _].
    apply Hfresh. rewrite Hp. apply list_elem_of_fmap. by exists c'.
  - by apply IH.
Qed.

(** ** The detection step *)

Section Detection.
Variable range_order :
  gmap string (list fingerprintedDevice) → list (string * list fingerprintedDevice).
Hypothesis range_order_valid : range_valid range_order.

Lemma buildGroups_fmap m :
  buildGroups range_order m =
    (λ e, deviceGroupFromFingerprintData e.1 e.2) <$> range_order m.
Proof. unfold buildGroups. by rewrite foldl_snoc_fmap. Qed.

Lemma writeFingerprintToChannel_hit d :
  identifiedDevices d ≠ ∅ → writeFingerprintToChannel range_order d = (d, []).
Proof.
  intros Hne. unfold writeFingerprintToChannel.
  case_decide as Hsz; [|done]. by apply map_size_empty_inv in Hsz.
Qed.

Lemma writeFingerprintToChannel_miss d :
  identifiedDevices d = ∅ →
  writeFingerprintToChannel range_order d =
    ({| configuredDevices := configuredDevices d;
        identifiedDevices := (groupDevices (discover (configuredDevices d)) ∅).2;
        fingerprintPeriod := fingerprintPeriod d |},
     [LogInfo "Found devices" (length (discover (configuredDevices d)));
      ChanSend (NewFingerprint
        (buildGroups range_order (groupDevices (discover (configuredDevices d)) ∅).1))]).
Proof.
  intros He. unfold writeFingerprintToChannel. rewrite He.
  case_decide as Hsz; [|by rewrite map_size_empty in Hsz].
  by destruct (groupDevices _ _).
Qed.

Lemma sent_response d r :
  ChanSend r ∈ (writeFingerprintToChannel range_order d).2 →
  identifiedDevices d = ∅ ∧
  r = NewFingerprint
        (buildGroups range_order (groupDevices (discover (configuredDevices d)) ∅).1).
Proof.
  destruct (decide (identifiedDevices d = ∅)) as [He|Hne].
  - rewrite writeFingerprintToChannel_miss by done. simpl.
    rewrite !elem_of_cons, elem_of_nil. intros [?|[[= ->]|[]]]; done.
  - rewrite writeFingerprintToChannel_hit by done. simpl. by rewrite elem_of_nil.
Qed.

Lemma range_order_entry m name ds :
  (name, ds) ∈ range_order m ↔ m !! name = Some ds.
Proof. rewrite (range_order_valid m). apply elem_of_map_to_list. Qed.

Lemma sent_group d r g :
  ChanSend r ∈ (writeFingerprintToChannel range_order d).2 →
  g ∈ fr_Devices r →
  ∃ name first rest,
    bucketOf name (discover (configuredDevices d)) = first :: rest ∧
    g = Some {| Vendor := gd_Vendor (device first); Type_ := gd_Type (device first);
                Name := name; Devices := deviceSummary <$> first :: rest |}.
Proof.
  intros [_ ->]%sent_response. simpl. rewrite buildGroups_fmap.
  intros [[name ds] [-> Hin]]%list_elem_of_fmap.
  apply range_order_entry, groupDevices_buckets in Hin as [-> Hne]. simpl.
  destruct (bucketOf name _) as [|first rest] eqn:Hb; [done|].
  exists name, first, rest. by rewrite deviceGroupFromFingerprintData_cons.
Qed.

Lemma memberCount_sent d r :
  ChanSend r ∈ (writeFingerprintToChannel range_order d).2 →
  memberCount r = length (discover (configuredDevices d)).
Proof.
  intros [_ ->]%sent_response. unfold memberCount. simpl. rewrite buildGroups_fmap.
  rewrite <-(bucketTotal_groupDevices (discover (configuredDevices d)) ∅).
  unfold bucketTotal. rewrite <-(range_order_valid _).
  induction (range_order _) as [|[name ds] l IH]; [done|].
  rewrite fmap_cons. simpl. by rewrite IH, length_group.
Qed.

(** C1: run on an empty cache over a list whose counts are all non-negative,
    the detection step generates as many devices as the sum over the
    entries of max(Count, 1): that is the length of the discovered list,
    the count the step logs and the number of members of the groups it
    sends.  An entry with Count = 0 adds exactly one device, of index 0. *)
Theorem discovery_generates_expected_total d :
  identifiedDevices d = ∅ →
  nonNegativeCounts (configuredDevices d) →
  Z.of_nat (length (discover (configuredDevices d))) = expectedTotal (configuredDevices d) ∧
  (∃ r, (writeFingerprintToChannel range_order d).2 =
          [LogInfo "Found devices" (Z.to_nat (expectedTotal (configuredDevices d))); ChanSend r] ∧
        Z.of_nat (memberCount r) = expectedTotal (configuredDevices d)) ∧
  (∀ c acc, cd_Count c = 0 → discoverOne acc c = acc ++ [newFingerprintedDevice c 0]).
Proof.
  intros He Hc. pose proof (length_discover _ Hc) as Hlen. split_and!.
  - done.
  - eexists. rewrite writeFingerprintToChannel_miss by done. simpl. split.
    + by rewrite <-Hlen, Nat2Z.id.
    + rewrite <-Hlen. f_equal. apply (memberCount_sent d).
      rewrite writeFingerprintToChannel_miss by done. simpl.
      apply list_elem_of_further, list_elem_of_here.
  - intros c acc H0. rewrite discoverOne_app. unfold effectiveCount. rewrite H0.
    by rewrite decide_True.
Qed.

(** C2, as the code has it: over a list with non-negative counts, the
    discovered devices are exactly those with ID "Type/Vendor/Model/index"
    built from an entry of the list, for every index in [0, max(Count, 1));
    the IDs built from one entry are pairwise distinct, and all IDs of the
    pass are pairwise distinct when no two entries have the same
    "Type/Vendor/Model" string. *)
Theorem discovered_IDs configured :
  nonNegativeCounts configured →
  (∀ dev, dev ∈ discover configured ↔
     ∃ c i, c ∈ configured ∧ 0 ≤ i < Z.max (cd_Count c) 1 ∧
       ID dev = cd_Type c +:+ "/" +:+ cd_Vendor c +:+ "/" +:+ cd_Model c +:+ "/" +:+ pretty i ∧
       device dev = {| gd_Type := cd_Type c; gd_Vendor := cd_Vendor c; gd_Model := cd_Model c |}) ∧
  (∀ c, 0 ≤ cd_Count c → NoDup (ID <$> discoverOne [] c)) ∧
  (NoDup (idPrefix <$> configured) → NoDup (ID <$> discover configured)).
Proof.
  intros Hc. split_and!.
  - intros dev. rewrite elem_of_discover by done. split.
    + intros (c & i & Hin & Hi & ->). by exists c, i.
    + intros (c & i & Hin & Hi & HID & Hdev). exists c, i.
      destruct dev as [id dv]. simpl in *. by subst.
  - intros c H0. rewrite discoverOne_expand by done. apply expand_ID_NoDup.
  - intros Hnd. rewrite discover_bind by done. by apply bind_expand_ID_NoDup.
Qed.

(** ** The loop, seen from the cache *)

Lemma fingerprintLoop_tick cases d :
  fingerprintLoop range_order (ticker_C :: cases) d =
    ((fingerprintLoop range_order cases (writeFingerprintToChannel range_order d).1).1.1,
     TimerReset (fingerprintPeriod d) ::
       (writeFingerprintToChannel range_order d).2 ++
       (fingerprintLoop range_order cases (writeFingerprintToChannel range_order d).1).1.2,
     (fingerprintLoop range_order cases (writeFingerprintToChannel range_order d).1).2).
Proof.
  cbn [fingerprintLoop]. destruct (writeFingerprintToChannel range_order d) as [d1 evs1].
  cbn [fst snd]. by destruct (fingerprintLoop range_order cases d1) as [[d2 evs2] returned].
Qed.

Lemma snapshots_app evs1 evs2 : snapshots (evs1 ++ evs2) = snapshots evs1 ++ snapshots evs2.
Proof. apply omap_app. Qed.

Lemma fingerprintLoop_hit cases d :
  identifiedDevices d ≠ ∅ →
  (fingerprintLoop range_order cases d).1.1 = d ∧
  snapshots (fingerprintLoop range_order cases d).1.2 = [].
Proof.
  intros Hne. induction cases as [|[|] cases IH]; [done..|].
  rewrite fingerprintLoop_tick, writeFingerprintToChannel_hit by done. done.
Qed.

Lemma groupDevices_cache_cons x l cache : (groupDevices (x :: l) cache).2 ≠ ∅.
Proof.
  intros He. assert ((groupDevices (x :: l) cache).2 !! ID x = None) as Hl.
  { by rewrite He, lookup_empty. }
  unfold groupDevices in Hl. rewrite groupStep_fold_cache in Hl.
  unfold bearers in Hl. rewrite filter_cons_True in Hl by done.
  rewrite last_cons in Hl. by destruct (last _).
Qed.

(** A detection step that discovers a device leaves a non-empty cache. *)
Lemma discovery_fills_cache d :
  identifiedDevices d = ∅ →
  discover (configuredDevices d) ≠ [] →
  identifiedDevices (writeFingerprintToChannel range_order d).1 ≠ ∅.
Proof.
  intros He Hd. rewrite writeFingerprintToChannel_miss by done. cbn [fst identifiedDevices].
  destruct (discover (configuredDevices d)) as [|x l]; [done|].
  apply groupDevices_cache_cons.
Qed.

(** A detection step that leaves the cache empty has left the plugin as it
    was: nothing was discovered. *)
Lemma writeFingerprintToChannel_still_empty d :
  identifiedDevices d = ∅ →
  identifiedDevices (writeFingerprintToChannel range_order d).1 = ∅ →
  (writeFingerprintToChannel range_order d).1 = d.
Proof.
  intros He. rewrite writeFingerprintToChannel_miss by done. simpl. intros ->.
  destruct d; simpl in *. by subst.
Qed.

Lemma fingerprintLoop_still_empty cases d :
  identifiedDevices d = ∅ →
  identifiedDevices (writeFingerprintToChannel range_order d).1 = ∅ →
  (fingerprintLoop range_order cases d).1.1 = d.
Proof.
  intros He Hs. induction cases as [|[|] cases IH]; [done..|].
  rewrite fingerprintLoop_tick. cbn [fst snd].
  by rewrite writeFingerprintToChannel_still_empty.
Qed.

Lemma snapshots_step_miss d :
  identifiedDevices d = ∅ →
  ∃ r, snapshots (writeFingerprintToChannel range_order d).2 = [r].
Proof. intros He. rewrite writeFingerprintToChannel_miss by done. by eexists. Qed.

Lemma fingerprintLoop_sends_once d0 cases :
  identifiedDevices (fingerprintLoop range_order cases d0).1.1 ≠ ∅ →
  snapshots (fingerprintLoop range_order cases d0).1.2 = [] ∨
  ∃ r, snapshots (writeFingerprintToChannel range_order d0).2 = [r] ∧
       snapshots (fingerprintLoop range_order cases d0).1.2 = [r].
Proof.
  intros Hfin. destruct (decide (identifiedDevices d0 = ∅)) as [He|Hne].
  - destruct cases as [|[|] cases]; [by left..|]. right.
    destruct (snapshots_step_miss d0 He) as [r Hr]. exists r. split; [done|].
    rewrite fingerprintLoop_tick. cbn [fst snd].
    change (snapshots (TimerReset ?p :: ?l)) with (snapshots l).
    rewrite snapshots_app, Hr.
    destruct (decide (identifiedDevices (writeFingerprintToChannel range_order d0).1 = ∅))
      as [Hs|Hs].
    + exfalso. apply Hfin. by rewrite fingerprintLoop_still_empty.
    + by destruct (fingerprintLoop_hit cases _ Hs) as [_ ->].
  - left. by apply fingerprintLoop_hit.
Qed.

(** C3: with a non-empty cache the detection step sends nothing and leaves
    the plugin, and so the cache, as it was, and the same holds for every
    later step of the loop.  Hence a run of the loop that reaches such a
    state has sent at most one snapshot, the one of the first detection step
    of the run, which saw the empty cache. *)
Theorem cache_hit_is_silent d :
  identifiedDevices d ≠ ∅ →
  writeFingerprintToChannel range_order d = (d, []) ∧
  (∀ cases, (fingerprintLoop range_order cases d).1.1 = d ∧
            snapshots (fingerprintLoop range_order cases d).1.2 = []) ∧
  (∀ d0 cases, (fingerprintLoop range_order cases d0).1.1 = d →
     snapshots (fingerprintLoop range_order cases d0).1.2 = [] ∨
     ∃ r, identifiedDevices d0 = ∅ ∧
          snapshots (writeFingerprintToChannel range_order d0).2 = [r] ∧
          snapshots (fingerprintLoop range_order cases d0).1.2 = [r]).
Proof.
  intros Hne. split_and!.
  - by apply writeFingerprintToChannel_hit.
  - intros cases. by apply fingerprintLoop_hit.
  - intros d0 cases Hend.
    destruct (decide (identifiedDevices d0 = ∅)) as [He|Hne0].
    + destruct (fingerprintLoop_sends_once d0 cases) as [?|(r & ? & ?)].
      * by rewrite Hend.
      * by left.
      * right. by exists r.
    + left. by apply fingerprintLoop_hit.
Qed.

(** C5, as the code has it: with an empty configured list and an empty
    cache the detection step sends one snapshot with zero groups and leaves
    the cache empty, so the same empty snapshot is sent again by every later
    detection step: [n] ticks send it [n] times. *)
Theorem empty_configuration_snapshot d :
  configuredDevices d = [] →
  identifiedDevices d = ∅ →
  writeFingerprintToChannel range_order d =
    (d, [LogInfo "Found devices" 0; ChanSend (NewFingerprint [])]) ∧
  ∀ n, snapshots (fingerprintLoop range_order (replicate n ticker_C) d).1.2 =
       replicate n (NewFingerprint []).
Proof.
  intros Hcfg He.
  assert (writeFingerprintToChannel range_order d =
    (d, [LogInfo "Found devices" 0; ChanSend (NewFingerprint [])])) as Hstep.
  { rewrite writeFingerprintToChannel_miss by done. rewrite Hcfg.
    change (discover []) with (@nil fingerprintedDevice).
    change (groupDevices [] ∅) with
      (∅ : gmap string (list fingerprintedDevice), ∅ : gmap string GenericDevice).
    cbn [fst snd length]. rewrite buildGroups_fmap.
    assert (range_order ∅ = []) as ->.
    { apply Permutation_nil_r. by rewrite (range_order_valid ∅), map_to_list_empty. }
    destruct d; simpl in *. by subst. }
  split; [done|]. intros n. induction n as [|n IH]; [done|].
  cbn [replicate]. rewrite fingerprintLoop_tick, Hstep. cbn [fst snd].
  change (snapshots (TimerReset ?p :: ?l)) with (snapshots l).
  rewrite snapshots_app, IH. done.
Qed.

(** ** Groups *)

Lemma bucketOf_expand name c :
  bucketOf name (expand c) = if decide (cd_Model c = name) then expand c else [].
Proof.
  unfold bucketOf, expand. induction (seqZ 0 _) as [|i l IH]; [by case_decide|].
  rewrite fmap_cons, filter_cons. simpl. rewrite IH. by repeat case_decide.
Qed.

Lemma bucketOf_bind_expand name configured :
  bucketOf name (configured ≫= expand) =
    filter (λ c, cd_Model c = name) configured ≫= expand.
Proof.
  induction configured as [|c l IH]; [done|].
  rewrite bind_cons. unfold bucketOf in *. rewrite filter_app, IH.
  fold (bucketOf name (expand c)). rewrite bucketOf_expand, filter_cons.
  case_decide; [by rewrite bind_cons|done].
Qed.

Lemma scenario3_buckets :
  (groupDevices (discover scenario3) ∅).1 =
    {[ "m" := [ {| ID := "t1/v1/m/0";
                   device := {| gd_Type := "t1"; gd_Vendor := "v1"; gd_Model := "m" |} |};
                {| ID := "t2/v2/m/0";
                   device := {| gd_Type := "t2"; gd_Vendor := "v2"; gd_Model := "m" |} |} ] ]}.
Proof. by vm_compute. Qed.

(** C4: a group that is sent is named by the model its members share, and
    its vendor and type are those of the first device put into the bucket
    of that model, which is the first discovered device of that model; the
    vendor and type of later devices of the bucket are not looked at.  In
    Scenario 3 the one group that is sent is named "m", holds both devices
    and has the vendor and type of the first entry. *)
Theorem group_takes_first_vendor_and_type :
  (∀ d r g,
     ChanSend r ∈ (writeFingerprintToChannel range_order d).2 →
     g ∈ fr_Devices r →
     ∃ grp first rest,
       g = Some grp ∧
       bucketOf (Name grp) (discover (configuredDevices d)) = first :: rest ∧
       Forall (λ dev, gd_Model (device dev) = Name grp) (first :: rest) ∧
       Devices grp = deviceSummary <$> first :: rest ∧
       Vendor grp = gd_Vendor (device first) ∧
       Type_ grp = gd_Type (device first)) ∧
  (∀ period,
     snapshots (writeFingerprintToChannel range_order (newPlugin scenario3 period)).2 =
       [NewFingerprint
          [Some {| Vendor := "v1"; Type_ := "t1"; Name := "m";
                   Devices := [ {| dev_ID := "t1/v1/m/0"; Healthy := true; HwLocality := None |};
                                {| dev_ID := "t2/v2/m/0"; Healthy := true; HwLocality := None |} ] |}]]).
Proof.
  split.
  - intros d r g Hsent Hg.
    destruct (sent_group d r g Hsent Hg) as (name & first & rest & Hb & ->).
    eexists _, first, rest. split_and!; try done. simpl.
    rewrite <-Hb. apply bucketOf_model.
  - intros period. rewrite writeFingerprintToChannel_miss by done.
    change (configuredDevices (newPlugin scenario3 period)) with scenario3.
    rewrite scenario3_buckets, buildGroups_fmap.
    pose proof (range_order_valid
      {[ "m" := [ {| ID := "t1/v1/m/0";
                     device := {| gd_Type := "t1"; gd_Vendor := "v1"; gd_Model := "m" |} |};
                  {| ID := "t2/v2/m/0";
                     device := {| gd_Type := "t2"; gd_Vendor := "v2"; gd_Model := "m" |} |} ] ]})
      as Hperm.
    rewrite map_to_list_singleton in Hperm. apply Permutation_singleton_r in Hperm.
    rewrite Hperm. done.
Qed.

(** C6: every element of a snapshot that is sent is a group with at least
    one member.  The branch of [deviceGroupFromFingerprintData] that returns
    nil is not taken for the buckets the grouping loop builds: every bucket
    [range] visits is non-empty. *)
Theorem sent_groups_have_members :
  (∀ l cache name ds,
     (name, ds) ∈ range_order (groupDevices l cache).1 →
     ds ≠ [] ∧ is_Some (deviceGroupFromFingerprintData name ds)) ∧
  (∀ d r g,
     ChanSend r ∈ (writeFingerprintToChannel range_order d).2 →
     g ∈ fr_Devices r →
     ∃ grp, g = Some grp ∧ Devices grp ≠ []).
Proof.
  split.
  - intros l cache name ds Hin.
    apply range_order_entry, groupDevices_buckets in Hin as [_ Hne].
    split; [done|]. destruct ds; [done|]. by rewrite deviceGroupFromFingerprintData_cons.
  - intros d r g Hsent Hg.
    destruct (sent_group d r g Hsent Hg) as (name & first & rest & _ & ->).
    by eexists.
Qed.

(** C7: every device summary of every snapshot that is sent has
    [Healthy = true] and no [HwLocality], whatever the configured list. *)
Theorem summaries_healthy_without_locality d r grp dev :
  ChanSend r ∈ (writeFingerprintToChannel range_order d).2 →
  Some grp ∈ fr_Devices r →
  dev ∈ Devices grp →
  Healthy dev = true ∧ HwLocality dev = None.
Proof.
  intros Hsent Hg Hdev.
  destruct (sent_group d r _ Hsent Hg) as (name & first & rest & _ & [= ->]).
  change (dev ∈ deviceSummary <$> first :: rest) in Hdev.
  by apply list_elem_of_fmap in Hdev as (x & -> & _).
Qed.

(** ** The cache after discovery *)

Lemma first_slash_split p1 p2 r1 r2 :
  slash_free p1 = true → slash_free p2 = true →
  p1 +:+ String "/" r1 = p2 +:+ String "/" r2 → p1 = p2 ∧ r1 = r2.
Proof.
  revert p2. induction p1 as [|c1 p1 IH]; intros [|c2 p2] H1 H2 Heq;
    rewrite ?append_nil_l, ?append_cons in Heq.
  - by injection Heq as ->.
  - injection Heq as <- _. by simpl in H2.
  - injection Heq as -> _. by simpl in H1.
  - injection Heq as -> Heq. simpl in H1, H2. case_decide; [done|].
    destruct (IH p2 H1 H2 Heq) as [-> ->]. done.
Qed.

Lemma idPrefix_fields c1 c2 :
  slash_free (cd_Type c1) = true → slash_free (cd_Vendor c1) = true →
  slash_free (cd_Type c2) = true → slash_free (cd_Vendor c2) = true →
  idPrefix c1 = idPrefix c2 →
  cd_Type c1 = cd_Type c2 ∧ cd_Vendor c1 = cd_Vendor c2 ∧ cd_Model c1 = cd_Model c2.
Proof.
  intros Ht1 Hv1 Ht2 Hv2 Heq. unfold idPrefix in Heq.
  apply (first_slash_split _ _ _ _ Ht1 Ht2) in Heq as [-> Heq].
  apply (first_slash_split _ _ _ _ Hv1 Hv2) in Heq as [-> ->]. done.
Qed.

Lemma cache_last_bearer l dev :
  dev ∈ l →
  ∃ winner, last (bearers (ID dev) l) = Some winner ∧
            winner ∈ l ∧ ID winner = ID dev ∧
            (groupDevices l ∅).2 !! ID dev = Some (device winner).
Proof.
  intros Hin. unfold groupDevices. rewrite groupStep_fold_cache.
  destruct (last (bearers (ID dev) l)) as [winner|] eqn:Hlast.
  - exists winner. apply last_Some_elem_of in Hlast as Hw.
    unfold bearers in Hw. apply list_elem_of_filter in Hw as [? ?]. done.
  - apply last_None in Hlast.
    assert (dev ∈ bearers (ID dev) l) as Hb by by apply list_elem_of_filter.
    rewrite Hlast in Hb. by apply elem_of_nil in Hb.
Qed.

(** C10, as the code has it: run on an empty cache over a list with
    non-negative counts, the members of a group that is sent are the devices
    of the entries of that model, entry after entry in the order of the
    configured list and index after index within an entry.  The cache then
    maps every generated ID to the record of the last generated device
    that bears this ID; that is the type, vendor and model of the entry the
    ID was generated from when no type and no vendor of the list contains
    the separator "/". *)
Theorem members_in_generation_order_cache_keeps_last d :
  identifiedDevices d = ∅ →
  nonNegativeCounts (configuredDevices d) →
  (∀ r grp,
     ChanSend r ∈ (writeFingerprintToChannel range_order d).2 →
     Some grp ∈ fr_Devices r →
     Devices grp =
       deviceSummary <$>
         (filter (λ c, cd_Model c = Name grp) (configuredDevices d) ≫= expand)) ∧
  (∀ dev,
     dev ∈ discover (configuredDevices d) →
     ∃ winner,
       last (bearers (ID dev) (discover (configuredDevices d))) = Some winner ∧
       identifiedDevices (writeFingerprintToChannel range_order d).1 !! ID dev =
         Some (device winner)) ∧
  ((∀ c, c ∈ configuredDevices d →
      slash_free (cd_Type c) = true ∧ slash_free (cd_Vendor c) = true) →
   ∀ c i,
     c ∈ configuredDevices d → 0 ≤ i < Z.max (cd_Count c) 1 →
     identifiedDevices (writeFingerprintToChannel range_order d).1
       !! Sprintf_ID (cd_Type c) (cd_Vendor c) (cd_Model c) i =
       Some {| gd_Type := cd_Type c; gd_Vendor := cd_Vendor c; gd_Model := cd_Model c |}).
Proof.
  intros He Hc. split_and!.
  - intros r grp Hsent Hg.
    destruct (sent_group d r _ Hsent Hg) as (name & first & rest & Hb & Hgrp).
    apply (inj Some) in Hgrp as ->.
    cbn [Devices Name]. rewrite <-Hb. f_equal.
    rewrite discover_bind by done. apply bucketOf_bind_expand.
  - intros dev Hin. rewrite writeFingerprintToChannel_miss by done. cbn [fst identifiedDevices].
    destruct (cache_last_bearer _ dev Hin) as (winner & ? & _ & _ & ?). by exists winner.
  - intros Hfree c i Hin Hi.
    rewrite writeFingerprintToChannel_miss by done. cbn [fst identifiedDevices].
    assert (newFingerprintedDevice c i ∈ discover (configuredDevices d)) as Hdev.
    { apply elem_of_discover; [done|]. by exists c, i. }
    destruct (cache_last_bearer _ _ Hdev) as (winner & _ & Hw & HID & Hlook).
    change (Sprintf_ID (cd_Type c) (cd_Vendor c) (cd_Model c) i)
      with (ID (newFingerprintedDevice c i)).
    rewrite Hlook. f_equal.
    apply elem_of_discover in Hw as (c' & j & Hin' & _ & ->); [|done].
    apply Sprintf_ID_inj in HID as [Hp _].
    destruct (Hfree c Hin) as [? ?]. destruct (Hfree c' Hin') as [? ?].
    apply idPrefix_fields in Hp as (Ht & Hv & Hm); [|done..].
    simpl. by rewrite Ht, Hv, Hm.
Qed.

(** ** The loop of [doFingerprint] *)

Lemma fingerprintPeriod_step d :
  fingerprintPeriod (writeFingerprintToChannel range_order d).1 = fingerprintPeriod d.
Proof.
  unfold writeFingerprintToChannel. case_decide; [|done]. by destruct (groupDevices _ _).
Qed.

Lemma fingerprintLoop_ticks n rest d :
  fingerprintLoop range_order (replicate n ticker_C ++ rest) d =
    ((fingerprintLoop range_order rest (afterDetections range_order n d)).1.1,
     (detectionStates range_order n d ≫= iterationEvents range_order (fingerprintPeriod d)) ++
       (fingerprintLoop range_order rest (afterDetections range_order n d)).1.2,
     (fingerprintLoop range_order rest (afterDetections range_order n d)).2).
Proof.
  revert d. induction n as [|n IH]; intros d.
  - simpl. by destruct (fingerprintLoop range_order rest d) as [[??]?].
  - cbn [replicate app]. rewrite fingerprintLoop_tick, IH. cbn [fst snd].
    cbn [detectionStates afterDetections]. rewrite bind_cons, fingerprintPeriod_step.
    unfold iterationEvents at 3. by rewrite <-app_assoc.
Qed.

Lemma length_detectionStates n d : length (detectionStates range_order n d) = n.
Proof. revert d. induction n as [|n IH]; intros d; simpl; [done|]. by rewrite IH. Qed.

Lemma step_events_cases d e :
  e ∈ (writeFingerprintToChannel range_order d).2 →
  (∃ msg count, e = LogInfo msg count) ∨
  (∃ groups, e = ChanSend (NewFingerprint groups)).
Proof.
  unfold writeFingerprintToChannel. case_decide.
  - destruct (groupDevices _ _). simpl. rewrite !elem_of_cons, elem_of_nil.
    intros [->|[->|[]]]; eauto.
  - simpl. by rewrite elem_of_nil.
Qed.

Lemma timerOps_step d : timerOps (writeFingerprintToChannel range_order d).2 = [].
Proof.
  unfold writeFingerprintToChannel. case_decide; [|done]. by destruct (groupDevices _ _).
Qed.

Lemma timerOps_iterations period l :
  timerOps (l ≫= iterationEvents range_order period) = replicate (length l) (TimerReset period).
Proof.
  induction l as [|di l IH]; [done|].
  rewrite bind_cons. unfold timerOps in *. rewrite filter_app, IH.
  unfold iterationEvents at 1. rewrite filter_cons_True by done.
  fold (timerOps (writeFingerprintToChannel range_order di).2).
  by rewrite timerOps_step.
Qed.

Lemma iterations_event period l e :
  e ∈ l ≫= iterationEvents range_order period →
  e = TimerReset period ∨
  (∃ msg count, e = LogInfo msg count) ∨
  (∃ groups, e = ChanSend (NewFingerprint groups)).
Proof.
  intros (di & He & _)%list_elem_of_bind. unfold iterationEvents in He.
  apply elem_of_cons in He as [->|He]; [by left|right].
  by apply step_events_cases in He.
Qed.

(** C8: when a [select] of the loop takes the cancellation case, after any
    number [n] of iterations that took the timer case, [doFingerprint]
    returns and its last event is the close of the channel: nothing is sent
    after it and the channel is closed once.  Every response sent before
    has no error.  Each iteration consults one [select]; the [n] detection
    steps started before the cancellation was seen are in the events in
    full, and no timer is armed after it. *)
Theorem cancellation_closes_the_channel n rest d :
  doFingerprint range_order (replicate n ticker_C ++ ctx_Done :: rest) d =
    (afterDetections range_order n d,
     NewTimer 0 ::
       (detectionStates range_order n d ≫= iterationEvents range_order (fingerprintPeriod d)) ++
       [ChanClose],
     true) ∧
  length (detectionStates range_order n d) = n ∧
  (ChanClose ∉
     detectionStates range_order n d ≫= iterationEvents range_order (fingerprintPeriod d)) ∧
  (∀ r, r ∈ snapshots
            (doFingerprint range_order (replicate n ticker_C ++ ctx_Done :: rest) d).1.2 →
        fr_Error r = None).
Proof.
  assert (doFingerprint range_order (replicate n ticker_C ++ ctx_Done :: rest) d =
    (afterDetections range_order n d,
     NewTimer 0 ::
       (detectionStates range_order n d ≫= iterationEvents range_order (fingerprintPeriod d)) ++
       [ChanClose],
     true)) as Hrun.
  { unfold doFingerprint. rewrite fingerprintLoop_ticks. cbn [fingerprintLoop fst snd].
    by rewrite app_nil_r. }
  split_and!.
  - done.
  - apply length_detectionStates.
  - intros Hin. apply iterations_event in Hin as [?|[(?&?&?)|(?&?)]]; done.
  - intros r Hr. rewrite Hrun in Hr. cbn [fst snd] in Hr.
    apply list_elem_of_omap in Hr as (e & He & Hsend).
    apply elem_of_cons in He as [->|He]; [done|].
    apply elem_of_app in He as [He|He].
    + apply iterations_event in He as [->|[(?&?&->)|(?&->)]]; try done.
      by injection Hsend as <-.
    + apply list_elem_of_singleton in He as ->. done.
Qed.

(** C9: [doFingerprint] first creates the timer with delay zero, so that
    the first detection step is due at once.  Each iteration that takes the
    timer case resets the timer to the plugin's fingerprint period and then
    runs its detection step, which does not touch the timer; this goes on
    for as many iterations as take the timer case, and the function has not
    returned and the channel is not closed while none takes the
    cancellation case. *)
Theorem timer_zero_then_every_period n d :
  doFingerprint range_order (replicate n ticker_C) d =
    (afterDetections range_order n d,
     NewTimer 0 ::
       (detectionStates range_order n d ≫= iterationEvents range_order (fingerprintPeriod d)),
     false) ∧
  length (detectionStates range_order n d) = n ∧
  timerOps (doFingerprint range_order (replicate n ticker_C) d).1.2 =
    NewTimer 0 :: replicate n (TimerReset (fingerprintPeriod d)) ∧
  (∀ rest, timerOps (doFingerprint range_order (replicate n ticker_C ++ ctx_Done :: rest) d).1.2 =
    NewTimer 0 :: replicate n (TimerReset (fingerprintPeriod d))).
Proof.
  assert (doFingerprint range_order (replicate n ticker_C) d =
    (afterDetections range_order n d,
     NewTimer 0 ::
       (detectionStates range_order n d ≫= iterationEvents range_order (fingerprintPeriod d)),
     false)) as Hrun.
  { unfold doFingerprint. rewrite <-(app_nil_r (replicate n ticker_C)).
    rewrite fingerprintLoop_ticks. cbn [fingerprintLoop fst snd]. by rewrite !app_nil_r. }
  split_and!.
  - done.
  - apply length_detectionStates.
  - rewrite Hrun. cbn [fst snd]. unfold timerOps. rewrite filter_cons_True by done.
    f_equal. fold (timerOps (detectionStates range_order n d ≫=
      iterationEvents range_order (fingerprintPeriod d))).
    by rewrite timerOps_iterations, length_detectionStates.
  - intros rest. unfold doFingerprint. rewrite fingerprintLoop_ticks.
    cbn [fingerprintLoop fst snd]. rewrite app_nil_r.
    unfold timerOps. rewrite filter_cons_True by done. f_equal.
    rewrite filter_app.
    fold (timerOps (detectionStates range_order n d ≫=
      iterationEvents range_order (fingerprintPeriod d))).
    rewrite timerOps_iterations, length_detectionStates.
    rewrite filter_cons_False by done. by rewrite filter_nil, app_nil_r.
Qed.

End Detection.

(** ** The statements at the scenarios of the specification *)

Lemma range_sorted_valid : range_valid range_sorted.
Proof. intros m. reflexivity. Qed.

Ltac counts_nonneg :=
  unfold nonNegativeCounts; repeat (apply Forall_cons_2; [simpl; lia|]); apply Forall_nil_2.

Lemma discovery_total_scenario2 :
  identifiedDevices (newPlugin scenario2 30) = ∅ ∧
  nonNegativeCounts scenario2 ∧
  expectedTotal scenario2 = 1 ∧
  Z.of_nat (length (discover scenario2)) = expectedTotal scenario2 ∧
  (∃ r, (writeFingerprintToChannel range_sorted (newPlugin scenario2 30)).2 =
          [LogInfo "Found devices" (Z.to_nat (expectedTotal scenario2)); ChanSend r] ∧
        Z.of_nat (memberCount r) = expectedTotal scenario2) ∧
  (∀ c acc, cd_Count c = 0 → discoverOne acc c = acc ++ [newFingerprintedDevice c 0]).
Proof.
  assert (identifiedDevices (newPlugin scenario2 30) = ∅) as He by reflexivity.
  assert (nonNegativeCounts scenario2) as Hc by counts_nonneg.
  split_and!; [exact He | exact Hc | reflexivity | ..];
    apply (discovery_generates_expected_total range_sorted range_sorted_valid
             (newPlugin scenario2 30) He Hc).
Defined.

Lemma discovered_IDs_scenario1 :
  nonNegativeCounts scenario1 ∧
  (∀ dev, dev ∈ discover scenario1 ↔
     ∃ c i, c ∈ scenario1 ∧ 0 ≤ i < Z.max (cd_Count c) 1 ∧
       ID dev = cd_Type c +:+ "/" +:+ cd_Vendor c +:+ "/" +:+ cd_Model c +:+ "/" +:+ pretty i ∧
       device dev = {| gd_Type := cd_Type c; gd_Vendor := cd_Vendor c; gd_Model := cd_Model c |}) ∧
  (∀ c, 0 ≤ cd_Count c → NoDup (ID <$> discoverOne [] c)) ∧
  (NoDup (idPrefix <$> scenario1) → NoDup (ID <$> discover scenario1)).
Proof.
  assert (nonNegativeCounts scenario1) as Hc by counts_nonneg.
  split; [exact Hc|]. exact (discovered_IDs scenario1 Hc).
Defined.

Lemma repeated_entry_repeats_ID :
  nonNegativeCounts repeatedEntry ∧ ¬ NoDup (ID <$> discover repeatedEntry).
Proof.
  split; [counts_nonneg|].
  change (ID <$> discover repeatedEntry) with ["gpu/nvidia/a100/0"; "gpu/nvidia/a100/0"].
  intros [Hn _]%NoDup_cons. apply Hn, list_elem_of_here.
Qed.

Lemma scenario1_cache_filled : identifiedDevices scenario1_discovered ≠ ∅.
Proof.
  intros He. apply (f_equal (λ m : gmap string GenericDevice, m !! "gpu/nvidia/a100/0")) in He.
  vm_compute in He. discriminate He.
Qed.

Lemma scenario1_sent :
  ChanSend scenario1_response ∈
    (writeFingerprintToChannel range_sorted (newPlugin scenario1 30)).2.
Proof. vm_compute. apply list_elem_of_further, list_elem_of_here. Qed.

Lemma cache_hit_scenario1 :
  identifiedDevices scenario1_discovered ≠ ∅ ∧
  writeFingerprintToChannel range_sorted scenario1_discovered = (scenario1_discovered, []) ∧
  (∀ cases, (fingerprintLoop range_sorted cases scenario1_discovered).1.1 = scenario1_discovered ∧
            snapshots (fingerprintLoop range_sorted cases scenario1_discovered).1.2 = []) ∧
  (∀ d0 cases, (fingerprintLoop range_sorted cases d0).1.1 = scenario1_discovered →
     snapshots (fingerprintLoop range_sorted cases d0).1.2 = [] ∨
     ∃ r, identifiedDevices d0 = ∅ ∧
          snapshots (writeFingerprintToChannel range_sorted d0).2 = [r] ∧
          snapshots (fingerprintLoop range_sorted cases d0).1.2 = [r]).
Proof.
  split; [exact scenario1_cache_filled|].
  exact (cache_hit_is_silent range_sorted scenario1_discovered scenario1_cache_filled).
Defined.

Lemma group_first_wins_sorted :
  range_valid range_sorted ∧
  ∀ period,
    snapshots (writeFingerprintToChannel range_sorted (newPlugin scenario3 period)).2 =
      [NewFingerprint
         [Some {| Vendor := "v1"; Type_ := "t1"; Name := "m";
                  Devices := [ {| dev_ID := "t1/v1/m/0"; Healthy := true; HwLocality := None |};
                               {| dev_ID := "t2/v2/m/0"; Healthy := true; HwLocality := None |} ] |}]].
Proof.
  split; [exact range_sorted_valid|].
  exact (proj2 (group_takes_first_vendor_and_type range_sorted range_sorted_valid)).
Defined.

Lemma empty_configuration_sorted :
  configuredDevices (newPlugin [] 30) = [] ∧
  identifiedDevices (newPlugin [] 30) = ∅ ∧
  writeFingerprintToChannel range_sorted (newPlugin [] 30) =
    (newPlugin [] 30, [LogInfo "Found devices" 0; ChanSend (NewFingerprint [])]) ∧
  ∀ n, snapshots (fingerprintLoop range_sorted (replicate n ticker_C) (newPlugin [] 30)).1.2 =
       replicate n (NewFingerprint []).
Proof.
  assert (configuredDevices (newPlugin [] 30) = []) as Hcfg by reflexivity.
  assert (identifiedDevices (newPlugin [] 30) = ∅) as He by reflexivity.
  split_and!; [exact Hcfg | exact He | ..];
    apply (empty_configuration_snapshot range_sorted range_sorted_valid (newPlugin [] 30) Hcfg He).
Defined.

Lemma empty_snapshot_sent_on_every_tick :
  snapshots (doFingerprint range_sorted [ticker_C; ticker_C; ticker_C; ctx_Done]
               (newPlugin [] 30)).1.2 =
    [NewFingerprint []; NewFingerprint []; NewFingerprint []] ∧
  length (snapshots (doFingerprint range_sorted [ticker_C; ticker_C; ticker_C; ctx_Done]
                       (newPlugin [] 30)).1.2) ≠ 1%nat.
Proof. split; [reflexivity|]. vm_compute. discriminate. Qed.

Lemma sent_groups_have_members_scenario1 :
  range_valid range_sorted ∧
  ChanSend scenario1_response ∈
    (writeFingerprintToChannel range_sorted (newPlugin scenario1 30)).2 ∧
  Some scenario1_group ∈ fr_Devices scenario1_response ∧
  ∃ grp, Some scenario1_group = Some grp ∧ Devices grp ≠ [].
Proof.
  assert (Some scenario1_group ∈ fr_Devices scenario1_response) as Hg
    by apply list_elem_of_here.
  split_and!; [exact range_sorted_valid | exact scenario1_sent | exact Hg |].
  exact (proj2 (sent_groups_have_members range_sorted range_sorted_valid)
           (newPlugin scenario1 30) scenario1_response (Some scenario1_group)
           scenario1_sent Hg).
Defined.

Lemma summaries_healthy_scenario1 :
  ChanSend scenario1_response ∈
    (writeFingerprintToChannel range_sorted (newPlugin scenario1 30)).2 ∧
  Some scenario1_group ∈ fr_Devices scenario1_response ∧
  {| dev_ID := "gpu/nvidia/a100/1"; Healthy := true; HwLocality := None |}
    ∈ Devices scenario1_group ∧
  Healthy {| dev_ID := "gpu/nvidia/a100/1"; Healthy := true; HwLocality := None |} = true ∧
  HwLocality {| dev_ID := "gpu/nvidia/a100/1"; Healthy := true; HwLocality := None |} = None.
Proof.
  assert (Some scenario1_group ∈ fr_Devices scenario1_response) as Hg
    by apply list_elem_of_here.
  assert ({| dev_ID := "gpu/nvidia/a100/1"; Healthy := true; HwLocality := None |}
            ∈ Devices scenario1_group) as Hdev
    by apply list_elem_of_further, list_elem_of_here.
  split_and!; [exact scenario1_sent | exact Hg | exact Hdev | ..];
    apply (summaries_healthy_without_locality range_sorted range_sorted_valid
             (newPlugin scenario1 30) scenario1_response scenario1_group _
             scenario1_sent Hg Hdev).
Defined.

Lemma generation_order_scenario3 :
  identifiedDevices (newPlugin scenario3 30) = ∅ ∧
  nonNegativeCounts scenario3 ∧
  (∀ r grp,
     ChanSend r ∈ (writeFingerprintToChannel range_sorted (newPlugin scenario3 30)).2 →
     Some grp ∈ fr_Devices r →
     Devices grp =
       deviceSummary <$> (filter (λ c, cd_Model c = Name grp) scenario3 ≫= expand)) ∧
  (∀ dev,
     dev ∈ discover scenario3 →
     ∃ winner,
       last (bearers (ID dev) (discover scenario3)) = Some winner ∧
       identifiedDevices (writeFingerprintToChannel range_sorted (newPlugin scenario3 30)).1
         !! ID dev = Some (device winner)) ∧
  ((∀ c, c ∈ scenario3 →
      slash_free (cd_Type c) = true ∧ slash_free (cd_Vendor c) = true) →
   ∀ c i,
     c ∈ scenario3 → 0 ≤ i < Z.max (cd_Count c) 1 →
     identifiedDevices (writeFingerprintToChannel range_sorted (newPlugin scenario3 30)).1
       !! Sprintf_ID (cd_Type c) (cd_Vendor c) (cd_Model c) i =
       Some {| gd_Type := cd_Type c; gd_Vendor := cd_Vendor c; gd_Model := cd_Model c |}).
Proof.
  assert (identifiedDevices (newPlugin scenario3 30) = ∅) as He by reflexivity.
  assert (nonNegativeCounts scenario3) as Hc by counts_nonneg.
  split; [exact He|]. split; [exact Hc|].
  exact (members_in_generation_order_cache_keeps_last range_sorted range_sorted_valid
           (newPlugin scenario3 30) He Hc).
Defined.

Lemma slash_entries_cache_mismatch :
  nonNegativeCounts slashEntries ∧
  {| cd_Type := "a/b"; cd_Vendor := "c"; cd_Model := "d"; cd_Count := 1 |} ∈ slashEntries ∧
  {| ID := "a/b/c/d/0";
     device := {| gd_Type := "a/b"; gd_Vendor := "c"; gd_Model := "d" |} |}
    ∈ discover slashEntries ∧
  identifiedDevices (writeFingerprintToChannel range_sorted (newPlugin slashEntries 30)).1
    !! "a/b/c/d/0" = Some {| gd_Type := "a"; gd_Vendor := "b/c"; gd_Model := "d" |} ∧
  identifiedDevices (writeFingerprintToChannel range_sorted (newPlugin slashEntries 30)).1
    !! "a/b/c/d/0" ≠ Some {| gd_Type := "a/b"; gd_Vendor := "c"; gd_Model := "d" |}.
Proof.
  split_and!.
  - counts_nonneg.
  - apply list_elem_of_here.
  - vm_compute. apply list_elem_of_here.
  - by vm_compute.
  - vm_compute. discriminate.
Qed.

(** * Further properties of the code *)

(** ** Discovery for any counts *)

Lemma foldl_discoverOne_generated acc configured :
  foldl discoverOne acc configured = acc ++ (configured ≫= generated).
Proof.
  revert acc. induction configured as [|c l IH]; intros acc.
  - simpl. by rewrite app_nil_r.
  - cbn [foldl]. rewrite IH, discoverOne_app, bind_cons. by rewrite <-app_assoc.
Qed.

Lemma discover_generated configured : discover configured = configured ≫= generated.
Proof. unfold discover. by rewrite foldl_discoverOne_generated. Qed.

(** X1: for any counts, negative ones too, discovery handles the entries
    one after the other: the devices of a concatenated list are those of
    its parts, in order.  An entry adds [Count] devices when its count is
    positive, one when it is 0 and none when it is negative. *)
Theorem discover_entry_by_entry :
  (∀ l1 l2, discover (l1 ++ l2) = discover l1 ++ discover l2) ∧
  (∀ c, Z.of_nat (length (discover [c])) =
          if decide (cd_Count c = 0) then 1 else Z.max (cd_Count c) 0) ∧
  (∀ c acc, cd_Count c < 0 → discoverOne acc c = acc) ∧
  (∀ l, length (discover l) = sum_list_with (λ c, length (discover [c])) l).
Proof.
  split_and!.
  - intros l1 l2. by rewrite !discover_generated, bind_app.
  - intros c. rewrite discover_generated, bind_cons.
    change ([] ≫= generated) with (@nil fingerprintedDevice). rewrite app_nil_r.
    unfold generated. rewrite length_fmap, length_seqZ. unfold effectiveCount.
    case_decide; lia.
  - intros c acc Hneg. rewrite discoverOne_app. unfold effectiveCount.
    rewrite decide_False by lia. rewrite seqZ_nil by lia. simpl. by rewrite app_nil_r.
  - intros l. induction l as [|c l IH]; [done|].
    change (c :: l) with ([c] ++ l) at 1.
    rewrite !discover_generated, bind_app, length_app, <-!discover_generated. simpl.
    by rewrite IH.
Qed.

(** X2: the ID string fixes the index and the "Type/Vendor/Model" part
    before the last separator; when the two types and vendors contain no
    "/", it fixes type, vendor, model and index. *)
Theorem Sprintf_ID_determines_fields t1 v1 m1 i1 t2 v2 m2 i2 :
  Sprintf_ID t1 v1 m1 i1 = Sprintf_ID t2 v2 m2 i2 →
  i1 = i2 ∧
  t1 +:+ "/" +:+ v1 +:+ "/" +:+ m1 = t2 +:+ "/" +:+ v2 +:+ "/" +:+ m2 ∧
  (slash_free t1 = true → slash_free v1 = true →
   slash_free t2 = true → slash_free v2 = true →
   t1 = t2 ∧ v1 = v2 ∧ m1 = m2).
Proof.
  intros Heq.
  pose (c1 := {| cd_Type := t1; cd_Vendor := v1; cd_Model := m1; cd_Count := 0 |}).
  pose (c2 := {| cd_Type := t2; cd_Vendor := v2; cd_Model := m2; cd_Count := 0 |}).
  destruct (Sprintf_ID_inj c1 i1 c2 i2 Heq) as [Hp Hi].
  split_and!; [done..|].
  intros Ht1 Hv1 Ht2 Hv2. by apply (idPrefix_fields c1 c2).
Qed.

(** X3: for any name and any list of devices, [deviceGroupFromFingerprintData]
    returns nil exactly for the empty list; otherwise the group has the
    given name, the vendor and type of the first device, and one healthy
    summary per device, with the IDs of the devices in their order. *)
Theorem deviceGroupFromFingerprintData_shape name deviceList :
  (deviceGroupFromFingerprintData name deviceList = None ↔ deviceList = []) ∧
  (∀ grp, deviceGroupFromFingerprintData name deviceList = Some grp →
     Name grp = name ∧
     head (gd_Vendor ∘ device <$> deviceList) = Some (Vendor grp) ∧
     head (gd_Type ∘ device <$> deviceList) = Some (Type_ grp) ∧
     dev_ID <$> Devices grp = ID <$> deviceList ∧
     length (Devices grp) = length deviceList ∧
     Forall (λ dev, Healthy dev = true ∧ HwLocality dev = None) (Devices grp)).
Proof.
  destruct deviceList as [|first rest].
  - split; [done|]. intros grp [=].
  - rewrite deviceGroupFromFingerprintData_cons. split; [done|].
    intros grp Hgrp. apply (inj Some) in Hgrp as <-.
    cbn [Name Vendor Type_ Devices]. split_and!; try done.
    + rewrite <-list_fmap_compose. done.
    + by rewrite length_fmap.
    + apply Forall_fmap, Forall_true. done.
Qed.

(** ** The cache as a map from IDs *)

Lemma cache_lookup_is_Some l id :
  is_Some ((groupDevices l ∅).2 !! id) ↔ id ∈ ID <$> l.
Proof.
  unfold groupDevices. rewrite groupStep_fold_cache, lookup_empty.
  destruct (last (bearers id l)) as [winner|] eqn:Hlast.
  - split; [intros _|by eauto].
    apply last_Some_elem_of in Hlast. unfold bearers in Hlast.
    apply list_elem_of_filter in Hlast as [<- ?]. by apply list_elem_of_fmap_2.
  - split; [by intros [? ?]|]. intros (dev & -> & Hin)%list_elem_of_fmap.
    apply last_None in Hlast.
    assert (dev ∈ bearers (ID dev) l) as Hb by by apply list_elem_of_filter.
    rewrite Hlast in Hb. by apply elem_of_nil in Hb.
Qed.

Lemma cache_dom l : dom (groupDevices l ∅).2 =@{gset string} list_to_set (ID <$> l).
Proof.
  apply set_eq. intros id. by rewrite elem_of_dom, cache_lookup_is_Some, elem_of_list_to_set.
Qed.

Lemma size_list_to_set_le (l : list string) : (size (list_to_set l : gset string) ≤ length l)%nat.
Proof.
  induction l as [|x l IH].
  - change (list_to_set [] : gset string) with (∅ : gset string). by rewrite size_empty.
  - rewrite list_to_set_cons, size_union_alt, size_singleton. cbn [length].
    assert (size (list_to_set l ∖ {[x]} : gset string) ≤ size (list_to_set l : gset string))%nat.
    { apply subseteq_size. intros y Hy. by apply elem_of_difference in Hy as [? _]. }
    lia.
Qed.

(** ** The buckets as a partition *)

Lemma bucketContents_insert m k x :
  bucketContents (<[k := default [] (m !! k) ++ [x]]> m) ≡ₚ x :: bucketContents m.
Proof.
  unfold bucketContents. destruct (m !! k) as [old|] eqn:Hk; simpl.
  - rewrite <-insert_delete_eq.
    rewrite map_to_list_insert by apply lookup_delete_eq.
    rewrite <-(map_to_list_delete m k old Hk). rewrite !bind_cons. simpl.
    rewrite <-app_assoc. simpl. by rewrite <-Permutation_middle.
  - rewrite map_to_list_insert by done. by rewrite bind_cons.
Qed.

Lemma bucketContents_fold l b cache :
  bucketContents (foldl groupStep (b, cache) l).1 ≡ₚ bucketContents b ++ l.
Proof.
  revert b cache. induction l as [|x l IH]; intros b cache.
  - simpl. by rewrite app_nil_r.
  - cbn [foldl]. unfold groupStep at 2. cbn [fst snd]. rewrite IH, bucketContents_insert.
    simpl. by rewrite <-Permutation_middle.
Qed.

Lemma bucketContents_groupDevices l cache : bucketContents (groupDevices l cache).1 ≡ₚ l.
Proof.
  unfold groupDevices. rewrite bucketContents_fold. unfold bucketContents.
  by rewrite map_to_list_empty.
Qed.

Lemma group_summaries name ds :
  from_option Devices [] (deviceGroupFromFingerprintData name ds) = deviceSummary <$> ds.
Proof. destruct ds; [done|]. by rewrite deviceGroupFromFingerprintData_cons. Qed.

Lemma memberSummaries_entries (entries : list (string * list fingerprintedDevice)) :
  ((λ e, deviceGroupFromFingerprintData e.1 e.2) <$> entries) ≫= from_option Devices [] =
    deviceSummary <$> (entries ≫= snd).
Proof.
  induction entries as [|[name ds] l IH]; [done|].
  rewrite fmap_cons, !bind_cons, fmap_app, IH. simpl. by rewrite group_summaries.
Qed.

Lemma groupNames_entries (entries : list (string * list fingerprintedDevice)) :
  Forall (λ e, e.2 ≠ []) entries →
  omap (fmap Name) ((λ e, deviceGroupFromFingerprintData e.1 e.2) <$> entries) = entries.*1.
Proof.
  induction 1 as [|[name ds] l Hne _ IH]; [done|].
  rewrite !fmap_cons. cbn [fst snd] in *. destruct ds as [|first rest]; [done|].
  rewrite deviceGroupFromFingerprintData_cons. cbn [omap list_omap fmap option_fmap option_map Name].
  by rewrite IH.
Qed.

Lemma buckets_dom l cache :
  dom (groupDevices l cache).1 =@{gset string} list_to_set (gd_Model ∘ device <$> l).
Proof.
  apply set_eq. intros name. rewrite elem_of_dom, elem_of_list_to_set. split.
  - intros [ds [-> Hne]%groupDevices_buckets].
    destruct (bucketOf name l) as [|dev k] eqn:Hb; [done|].
    assert (dev ∈ bucketOf name l) as Hin by (rewrite Hb; apply list_elem_of_here).
    unfold bucketOf in Hin. apply list_elem_of_filter in Hin as [<- Hin].
    by apply (list_elem_of_fmap_2 (gd_Model ∘ device)).
  - intros (dev & -> & Hin)%list_elem_of_fmap. exists (bucketOf (gd_Model (device dev)) l).
    apply groupDevices_buckets. split; [done|]. intros He.
    assert (dev ∈ bucketOf (gd_Model (device dev)) l) as Hb by by apply list_elem_of_filter.
    rewrite He in Hb. by apply elem_of_nil in Hb.
Qed.

Section Snapshot.
Variable range_order :
  gmap string (list fingerprintedDevice) → list (string * list fingerprintedDevice).
Hypothesis range_order_valid : range_valid range_order.

(** X4: after a detection step on an empty cache, the cache has an entry
    exactly for the IDs of the discovered devices and for no other key; it
    holds at most as many entries as devices were discovered, and as many
    when their IDs are pairwise distinct. *)
Theorem cache_keys_are_discovered_IDs d :
  identifiedDevices d = ∅ →
  (∀ id, is_Some (identifiedDevices (writeFingerprintToChannel range_order d).1 !! id) ↔
         id ∈ ID <$> discover (configuredDevices d)) ∧
  (size (identifiedDevices (writeFingerprintToChannel range_order d).1) ≤
     length (discover (configuredDevices d)))%nat ∧
  (NoDup (ID <$> discover (configuredDevices d)) →
   size (identifiedDevices (writeFingerprintToChannel range_order d).1) =
     length (discover (configuredDevices d))).
Proof.
  intros He. rewrite writeFingerprintToChannel_miss by done. cbn [fst identifiedDevices].
  split_and!.
  - intros id. apply cache_lookup_is_Some.
  - rewrite <-(size_dom (D:=gset string)), cache_dom.
    rewrite <-(length_fmap ID). apply size_list_to_set_le.
  - intros Hnd. rewrite <-(size_dom (D:=gset string)), cache_dom.
    rewrite size_list_to_set by done. by rewrite length_fmap.
Qed.

Lemma memberSummaries_sent d r :
  ChanSend r ∈ (writeFingerprintToChannel range_order d).2 →
  memberSummaries r ≡ₚ deviceSummary <$> discover (configuredDevices d).
Proof.
  intros [_ ->]%sent_response. unfold memberSummaries. cbn [fr_Devices NewFingerprint].
  rewrite buildGroups_fmap, memberSummaries_entries.
  rewrite (range_order_valid _).
  fold (bucketContents (groupDevices (discover (configuredDevices d)) ∅).1).
  by rewrite bucketContents_groupDevices.
Qed.

(** X5: the groups of a snapshot that is sent partition the discovered
    devices: listed group after group, the device summaries of the snapshot
    are the summaries of the discovered devices in some order, each device
    once. *)
Theorem snapshot_partitions_discovered d r :
  ChanSend r ∈ (writeFingerprintToChannel range_order d).2 →
  memberSummaries r ≡ₚ deviceSummary <$> discover (configuredDevices d) ∧
  dev_ID <$> memberSummaries r ≡ₚ ID <$> discover (configuredDevices d).
Proof.
  intros Hsent. pose proof (memberSummaries_sent d r Hsent) as Hperm.
  split; [done|]. rewrite Hperm, <-list_fmap_compose. done.
Qed.

(** X6: the device IDs of a snapshot that is sent are exactly the keys the
    cache holds after the step that sent it. *)
Theorem snapshot_IDs_are_cache_keys d r id :
  ChanSend r ∈ (writeFingerprintToChannel range_order d).2 →
  id ∈ dev_ID <$> memberSummaries r ↔
  is_Some (identifiedDevices (writeFingerprintToChannel range_order d).1 !! id).
Proof.
  intros Hsent. rewrite (memberSummaries_sent d r Hsent), <-list_fmap_compose.
  apply sent_response in Hsent as [He _].
  rewrite writeFingerprintToChannel_miss by done. cbn [fst identifiedDevices].
  by rewrite cache_lookup_is_Some.
Qed.

(** X7: a snapshot that is sent has one group for each model of a
    discovered device: every element is a group, the group names are
    pairwise distinct and are exactly the models of the discovered devices,
    so there are as many groups as distinct models. *)
Theorem one_group_per_model d r :
  ChanSend r ∈ (writeFingerprintToChannel range_order d).2 →
  NoDup (groupNames r) ∧
  length (groupNames r) = length (fr_Devices r) ∧
  (∀ name, name ∈ groupNames r ↔
           name ∈ gd_Model ∘ device <$> discover (configuredDevices d)) ∧
  length (fr_Devices r) =
    size (list_to_set (gd_Model ∘ device <$> discover (configuredDevices d)) : gset string).
Proof.
  intros [_ ->]%sent_response. unfold groupNames. cbn [fr_Devices NewFingerprint].
  rewrite buildGroups_fmap.
  assert (Forall (λ e, e.2 ≠ [])
            (range_order (groupDevices (discover (configuredDevices d)) ∅).1)) as Hne.
  { apply Forall_forall. intros [name ds] Hin.
    by apply range_order_entry, groupDevices_buckets in Hin as [_ ?]. }
  rewrite groupNames_entries by done. rewrite !length_fmap.
  assert (∀ name, name ∈ (range_order (groupDevices (discover (configuredDevices d)) ∅).1).*1 ↔
                  name ∈ gd_Model ∘ device <$> discover (configuredDevices d)) as Hnames.
  { intros name. rewrite (range_order_valid _).
    rewrite <-(elem_of_list_to_set (C:=gset string) name (_ ∘ _ <$> _)).
    rewrite <-(buckets_dom _ ∅), elem_of_dom. split.
    - intros ([n ds] & -> & Hin)%list_elem_of_fmap. exists ds. by apply elem_of_map_to_list.
    - intros [ds Hds]. apply list_elem_of_fmap. exists (name, ds).
      split; [done|]. by apply elem_of_map_to_list. }
  split_and!.
  - rewrite (range_order_valid _). apply NoDup_fst_map_to_list.
  - done.
  - done.
  - rewrite (range_order_valid _), length_map_to_list.
    by rewrite <-(size_dom (D:=gset string)), (buckets_dom _ ∅).
Qed.

(** X8: over a list with non-negative counts, a group that is sent has as
    many devices as the sum of max(Count, 1) over the entries of the
    configured list whose model is the name of the group. *)
Theorem group_size_is_sum_over_its_entries d r grp :
  nonNegativeCounts (configuredDevices d) →
  ChanSend r ∈ (writeFingerprintToChannel range_order d).2 →
  Some grp ∈ fr_Devices r →
  Z.of_nat (length (Devices grp)) =
    expectedTotal (filter (λ c, cd_Model c = Name grp) (configuredDevices d)).
Proof.
  intros Hc Hsent Hg.
  destruct (sent_group range_order range_order_valid d r _ Hsent Hg)
    as (name & first & rest & Hb & Hgrp).
  apply (inj Some) in Hgrp as ->. cbn [Devices Name].
  rewrite length_fmap, <-Hb, discover_bind, bucketOf_bind_expand by done.
  assert (nonNegativeCounts (filter (λ c, cd_Model c = name) (configuredDevices d))) as Hf.
  { unfold nonNegativeCounts in *. rewrite Forall_forall in *.
    intros c Hin. apply list_elem_of_filter in Hin as [_ Hin]. by apply Hc. }
  by rewrite <-(discover_bind _ Hf), length_discover.
Qed.

(** ** How often the loop sends *)

Lemma generated_nil_iff c : generated c = [] ↔ cd_Count c < 0.
Proof.
  unfold generated, effectiveCount. split.
  - intros Hnil. apply (f_equal length) in Hnil. rewrite length_fmap, length_seqZ in Hnil.
    simpl in Hnil. case_decide; lia.
  - intros Hneg. rewrite decide_False by lia. by rewrite seqZ_nil by lia.
Qed.

Lemma discover_nil_iff configured :
  discover configured = [] ↔ Forall (λ c, cd_Count c < 0) configured.
Proof.
  rewrite discover_generated. induction configured as [|c l IH].
  - split; [constructor|done].
  - rewrite bind_cons, Forall_cons, <-IH, <-generated_nil_iff. apply app_nil.
Qed.

Lemma step_nothing_discovered d :
  discover (configuredDevices d) = [] →
  identifiedDevices d = ∅ →
  writeFingerprintToChannel range_order d =
    (d, [LogInfo "Found devices" 0; ChanSend (NewFingerprint [])]).
Proof.
  intros Hd He. rewrite writeFingerprintToChannel_miss by done. rewrite Hd.
  change (groupDevices [] ∅) with
    (∅ : gmap string (list fingerprintedDevice), ∅ : gmap string GenericDevice).
  cbn [fst snd length]. rewrite buildGroups_fmap.
  assert (range_order ∅ = []) as ->.
  { apply Permutation_nil_r. by rewrite (range_order_valid ∅), map_to_list_empty. }
  destruct d; simpl in *. by subst.
Qed.

(** X9: when the cache is empty and some entry of the configured list has
    a non-negative count, a run of the loop that takes the timer case at
    least once sends exactly one snapshot, that of its first detection
    step, however many iterations follow; the cache is the one that step
    left. *)
Theorem discovery_sends_exactly_once d cases :
  identifiedDevices d = ∅ →
  Exists (λ c, 0 ≤ cd_Count c) (configuredDevices d) →
  ∃ r,
    snapshots (writeFingerprintToChannel range_order d).2 = [r] ∧
    snapshots (fingerprintLoop range_order (ticker_C :: cases) d).1.2 = [r] ∧
    (fingerprintLoop range_order (ticker_C :: cases) d).1.1 =
      (writeFingerprintToChannel range_order d).1.
Proof.
  intros He Hex.
  assert (discover (configuredDevices d) ≠ []) as Hd.
  { rewrite discover_nil_iff. intros Hall. apply Exists_exists in Hex as (c & Hin & Hc).
    rewrite Forall_forall in Hall. specialize (Hall c Hin). lia. }
  destruct (snapshots_step_miss range_order d He) as [r Hr]. exists r.
  pose proof (discovery_fills_cache range_order d He Hd) as Hfull.
  destruct (fingerprintLoop_hit range_order cases _ Hfull) as [Hst Hsn].
  rewrite fingerprintLoop_tick. cbn [fst snd]. split_and!; [done| |done].
  change (snapshots (TimerReset ?p :: ?l)) with (snapshots l).
  by rewrite snapshots_app, Hr, Hsn.
Qed.

(** X10: when the cache is empty and every count of the configured list is
    negative, the detection step discovers nothing: it logs a count of 0,
    sends a snapshot without groups and leaves the plugin as it was, so
    [n] iterations of the loop send [n] such snapshots. *)
Theorem negative_counts_send_empty_snapshots d :
  identifiedDevices d = ∅ →
  Forall (λ c, cd_Count c < 0) (configuredDevices d) →
  writeFingerprintToChannel range_order d =
    (d, [LogInfo "Found devices" 0; ChanSend (NewFingerprint [])]) ∧
  ∀ n, snapshots (fingerprintLoop range_order (replicate n ticker_C) d).1.2 =
         replicate n (NewFingerprint []) ∧
       (fingerprintLoop range_order (replicate n ticker_C) d).1.1 = d.
Proof.
  intros He Hneg. apply discover_nil_iff in Hneg.
  pose proof (step_nothing_discovered d Hneg He) as Hstep.
  split; [done|]. intros n. induction n as [|n [IHs IHd]]; [done|].
  cbn [replicate]. rewrite fingerprintLoop_tick, Hstep. cbn [fst snd]. split; [|done].
  change (snapshots (TimerReset ?p :: ?l)) with (snapshots l).
  by rewrite snapshots_app, IHs.
Qed.

(** ** What the loop leaves alone *)

Lemma configuredDevices_step d :
  configuredDevices (writeFingerprintToChannel range_order d).1 = configuredDevices d.
Proof.
  unfold writeFingerprintToChannel. case_decide; [|done]. by destruct (groupDevices _ _).
Qed.

Lemma identifiedDevices_step d :
  identifiedDevices d ⊆ identifiedDevices (writeFingerprintToChannel range_order d).1.
Proof.
  destruct (decide (identifiedDevices d = ∅)) as [He|Hne].
  - rewrite He at 1. apply map_empty_subseteq.
  - by rewrite writeFingerprintToChannel_hit.
Qed.

Lemma fingerprintLoop_frame cases d :
  configuredDevices (fingerprintLoop range_order cases d).1.1 = configuredDevices d ∧
  fingerprintPeriod (fingerprintLoop range_order cases d).1.1 = fingerprintPeriod d ∧
  identifiedDevices d ⊆ identifiedDevices (fingerprintLoop range_order cases d).1.1.
Proof.
  revert d. induction cases as [|[|] cases IH]; intros d; [done..|].
  rewrite fingerprintLoop_tick. cbn [fst snd].
  destruct (IH (writeFingerprintToChannel range_order d).1) as (Hc & Hp & Hi).
  rewrite Hc, Hp, configuredDevices_step, fingerprintPeriod_step. split_and!; [done..|].
  etrans; [apply identifiedDevices_step|done].
Qed.

Lemma doFingerprint_state cases d :
  (doFingerprint range_order cases d).1.1 = (fingerprintLoop range_order cases d).1.1.
Proof.
  unfold doFingerprint. by destruct (fingerprintLoop range_order cases d) as [[??]?].
Qed.

(** X11: whatever cases its [select]s take, [doFingerprint] leaves the
    configured list and the fingerprint period of the plugin as they were,
    and never removes or changes an entry of the cache: every ID the cache
    held before maps to the same record afterwards. *)
Theorem doFingerprint_keeps_configuration_and_entries cases d :
  configuredDevices (doFingerprint range_order cases d).1.1 = configuredDevices d ∧
  fingerprintPeriod (doFingerprint range_order cases d).1.1 = fingerprintPeriod d ∧
  (∀ id dev, identifiedDevices d !! id = Some dev →
             identifiedDevices (doFingerprint range_order cases d).1.1 !! id = Some dev).
Proof.
  rewrite doFingerprint_state. destruct (fingerprintLoop_frame cases d) as (Hc & Hp & Hi).
  split_and!; [done..|]. intros id dev Hid.
  by apply (lookup_weaken (identifiedDevices d)).
Qed.

(** ** When the channel is closed *)

Lemma fingerprintLoop_returned cases d :
  (fingerprintLoop range_order cases d).2 = true ↔ ctx_Done ∈ cases.
Proof.
  revert d. induction cases as [|[|] cases IH]; intros d.
  - simpl. rewrite elem_of_nil. done.
  - simpl. split; [intros _; apply list_elem_of_here|done].
  - rewrite fingerprintLoop_tick. cbn [fst snd]. rewrite IH, elem_of_cons.
    split; [by right|]. by intros [?|?].
Qed.

Lemma fingerprintLoop_no_close cases d :
  ChanClose ∉ (fingerprintLoop range_order cases d).1.2.
Proof.
  revert d. induction cases as [|[|] cases IH]; intros d.
  - simpl. apply not_elem_of_nil.
  - simpl. apply not_elem_of_nil.
  - rewrite fingerprintLoop_tick. cbn [fst snd].
    rewrite elem_of_cons, elem_of_app. intros [?|[Hin|Hin]]; [done| |by eapply IH].
    apply step_events_cases in Hin as [(?&?&?)|(?&?)]; done.
Qed.

Lemma fingerprintLoop_ignores_rest pre rest d :
  ctx_Done ∈ pre →
  fingerprintLoop range_order (pre ++ rest) d = fingerprintLoop range_order pre d.
Proof.
  revert d. induction pre as [|[|] pre IH]; intros d Hin.
  - by apply elem_of_nil in Hin.
  - done.
  - apply elem_of_cons in Hin as [?|Hin]; [done|].
    change ((ticker_C :: pre) ++ rest) with (ticker_C :: (pre ++ rest)).
    rewrite !fingerprintLoop_tick. by rewrite IH.
Qed.

(** X12: for any list of cases, [doFingerprint] has returned exactly when
    some [select] took the cancellation case, and exactly then its events
    hold a close of the channel, as their last event.  The cases after the
    first cancellation are of no effect, and without one the channel stays
    open. *)
Theorem channel_closed_iff_cancelled cases d :
  ((doFingerprint range_order cases d).2 = true ↔ ctx_Done ∈ cases) ∧
  (ChanClose ∈ (doFingerprint range_order cases d).1.2 ↔ ctx_Done ∈ cases) ∧
  (ctx_Done ∈ cases → last (doFingerprint range_order cases d).1.2 = Some ChanClose) ∧
  (∀ rest, ctx_Done ∈ cases →
     doFingerprint range_order (cases ++ rest) d = doFingerprint range_order cases d).
Proof.
  pose proof (fingerprintLoop_returned cases d) as Hret.
  pose proof (fingerprintLoop_no_close cases d) as Hnc.
  assert (∀ rest, ctx_Done ∈ cases →
    doFingerprint range_order (cases ++ rest) d = doFingerprint range_order cases d) as Hrest.
  { intros rest Hin. unfold doFingerprint. by rewrite fingerprintLoop_ignores_rest. }
  unfold doFingerprint in *.
  destruct (fingerprintLoop range_order cases d) as [[d' evs] returned]. cbn [fst snd] in *.
  split_and!.
  - done.
  - rewrite <-Hret, elem_of_cons, elem_of_app. destruct returned.
    + split; [done|]. intros _. right. right. apply list_elem_of_here.
    + split; [|done]. intros [?|[?|Hin]]; [done..|]. by apply elem_of_nil in Hin.
  - intros Hin. apply Hret in Hin as ->.
    change (NewTimer 0 :: evs ++ [ChanClose]) with ((NewTimer 0 :: evs) ++ [ChanClose]).
    apply last_snoc.
  - done.
Qed.

End Snapshot.

(** ** The order of [range] *)

Lemma step_order_independent ro1 ro2 d :
  range_valid ro1 → range_valid ro2 →
  (writeFingerprintToChannel ro1 d).1 = (writeFingerprintToChannel ro2 d).1 ∧
  Forall2 same_up_to_group_order
    (writeFingerprintToChannel ro1 d).2 (writeFingerprintToChannel ro2 d).2.
Proof.
  intros Hv1 Hv2. destruct (decide (identifiedDevices d = ∅)) as [He|Hne].
  - rewrite !writeFingerprintToChannel_miss by done. split; [done|]. cbn [snd].
    repeat constructor. cbn [fr_Devices NewFingerprint].
    rewrite !buildGroups_fmap. by rewrite (Hv1 _), (Hv2 _).
  - rewrite !writeFingerprintToChannel_hit by done. split; [done|constructor].
Qed.

Lemma fingerprintLoop_order_independent ro1 ro2 cases d :
  range_valid ro1 → range_valid ro2 →
  (fingerprintLoop ro1 cases d).1.1 = (fingerprintLoop ro2 cases d).1.1 ∧
  Forall2 same_up_to_group_order
    (fingerprintLoop ro1 cases d).1.2 (fingerprintLoop ro2 cases d).1.2 ∧
  (fingerprintLoop ro1 cases d).2 = (fingerprintLoop ro2 cases d).2.
Proof.
  intros Hv1 Hv2. revert d. induction cases as [|[|] cases IH]; intros d.
  - split_and!; [done|constructor|done].
  - split_and!; [done|constructor|done].
  - rewrite !fingerprintLoop_tick. cbn [fst snd].
    destruct (step_order_independent ro1 ro2 d Hv1 Hv2) as [Hst Hev]. rewrite <-Hst.
    destruct (IH (writeFingerprintToChannel ro1 d).1) as (? & ? & ?).
    split_and!; [done| |done].
    constructor; [done|]. by apply Forall2_app.
Qed.

(** X13: the order in which [range] visits the grouping map shows only in
    the order of the groups within a snapshot.  For any two orders and any
    cases, [doFingerprint] ends with the same plugin and the same answer to
    whether it returned, and its events are the same one by one, up to the
    order of the groups in the responses sent. *)
Theorem range_order_only_permutes_groups ro1 ro2 cases d :
  range_valid ro1 → range_valid ro2 →
  (doFingerprint ro1 cases d).1.1 = (doFingerprint ro2 cases d).1.1 ∧
  (doFingerprint ro1 cases d).2 = (doFingerprint ro2 cases d).2 ∧
  Forall2 same_up_to_group_order (doFingerprint ro1 cases d).1.2 (doFingerprint ro2 cases d).1.2.
Proof.
  intros Hv1 Hv2.
  destruct (fingerprintLoop_order_independent ro1 ro2 cases d Hv1 Hv2) as (Hst & Hev & Hret).
  unfold doFingerprint.
  destruct (fingerprintLoop ro1 cases d) as [[d1 evs1] ret1].
  destruct (fingerprintLoop ro2 cases d) as [[d2 evs2] ret2]. cbn [fst snd] in *.
  subst. split_and!; [done..|].
  constructor; [done|]. apply Forall2_app; [done|]. destruct ret2; repeat constructor.
Qed.

(** ** These properties at concrete inputs *)

Lemma range_reversed_valid : range_valid range_reversed.
Proof. intros m. unfold range_reversed. apply reverse_Permutation. Qed.

Lemma Sprintf_ID_slash_collision :
  Sprintf_ID "a/b" "c" "d" 0 = Sprintf_ID "a" "b/c" "d" 0 ∧
  0 = 0 ∧
  "a/b" +:+ "/" +:+ "c" +:+ "/" +:+ "d" = "a" +:+ "/" +:+ "b/c" +:+ "/" +:+ "d" ∧
  (slash_free "a/b" = true → slash_free "c" = true →
   slash_free "a" = true → slash_free "b/c" = true →
   "a/b" = "a" ∧ "c" = "b/c" ∧ "d" = "d").
Proof.
  assert (Sprintf_ID "a/b" "c" "d" 0 = Sprintf_ID "a" "b/c" "d" 0) as Heq by reflexivity.
  split; [exact Heq|].
  exact (Sprintf_ID_determines_fields "a/b" "c" "d" 0 "a" "b/c" "d" 0 Heq).
Defined.

Lemma cache_keys_repeated_entry :
  identifiedDevices (newPlugin repeatedEntry 30) = ∅ ∧
  (∀ id, is_Some (identifiedDevices
                    (writeFingerprintToChannel range_sorted (newPlugin repeatedEntry 30)).1 !! id) ↔
         id ∈ ID <$> discover repeatedEntry) ∧
  (size (identifiedDevices
           (writeFingerprintToChannel range_sorted (newPlugin repeatedEntry 30)).1) ≤
     length (discover repeatedEntry))%nat ∧
  (NoDup (ID <$> discover repeatedEntry) →
   size (identifiedDevices
           (writeFingerprintToChannel range_sorted (newPlugin repeatedEntry 30)).1) =
     length (discover repeatedEntry)).
Proof.
  assert (identifiedDevices (newPlugin repeatedEntry 30) = ∅) as He by reflexivity.
  split; [exact He|].
  exact (cache_keys_are_discovered_IDs range_sorted (newPlugin repeatedEntry 30) He).
Defined.

Lemma snapshot_partitions_scenario1 :
  ChanSend scenario1_response ∈
    (writeFingerprintToChannel range_sorted (newPlugin scenario1 30)).2 ∧
  memberSummaries scenario1_response ≡ₚ deviceSummary <$> discover scenario1 ∧
  dev_ID <$> memberSummaries scenario1_response ≡ₚ ID <$> discover scenario1.
Proof.
  split; [exact scenario1_sent|].
  exact (snapshot_partitions_discovered range_sorted range_sorted_valid
           (newPlugin scenario1 30) scenario1_response scenario1_sent).
Defined.

Lemma snapshot_IDs_scenario1 :
  ChanSend scenario1_response ∈
    (writeFingerprintToChannel range_sorted (newPlugin scenario1 30)).2 ∧
  ("gpu/nvidia/a100/1" ∈ dev_ID <$> memberSummaries scenario1_response ↔
   is_Some (identifiedDevices (writeFingerprintToChannel range_sorted (newPlugin scenario1 30)).1
              !! "gpu/nvidia/a100/1")).
Proof.
  split; [exact scenario1_sent|].
  exact (snapshot_IDs_are_cache_keys range_sorted range_sorted_valid
           (newPlugin scenario1 30) scenario1_response "gpu/nvidia/a100/1" scenario1_sent).
Defined.

Lemma one_group_per_model_scenario1 :
  ChanSend scenario1_response ∈
    (writeFingerprintToChannel range_sorted (newPlugin scenario1 30)).2 ∧
  NoDup (groupNames scenario1_response) ∧
  length (groupNames scenario1_response) = length (fr_Devices scenario1_response) ∧
  (∀ name, name ∈ groupNames scenario1_response ↔
           name ∈ gd_Model ∘ device <$> discover scenario1) ∧
  length (fr_Devices scenario1_response) =
    size (list_to_set (gd_Model ∘ device <$> discover scenario1) : gset string).
Proof.
  split; [exact scenario1_sent|].
  exact (one_group_per_model range_sorted range_sorted_valid
           (newPlugin scenario1 30) scenario1_response scenario1_sent).
Defined.

Lemma group_size_scenario1 :
  nonNegativeCounts scenario1 ∧
  ChanSend scenario1_response ∈
    (writeFingerprintToChannel range_sorted (newPlugin scenario1 30)).2 ∧
  Some scenario1_group ∈ fr_Devices scenario1_response ∧
  Z.of_nat (length (Devices scenario1_group)) =
    expectedTotal (filter (λ c, cd_Model c = Name scenario1_group) scenario1).
Proof.
  assert (nonNegativeCounts scenario1) as Hc by counts_nonneg.
  assert (Some scenario1_group ∈ fr_Devices scenario1_response) as Hg
    by apply list_elem_of_here.
  split_and!; [exact Hc | exact scenario1_sent | exact Hg |].
  exact (group_size_is_sum_over_its_entries range_sorted range_sorted_valid
           (newPlugin scenario1 30) scenario1_response scenario1_group
           Hc scenario1_sent Hg).
Defined.

Lemma sends_once_negativeEntry :
  identifiedDevices (newPlugin negativeEntry 30) = ∅ ∧
  Exists (λ c, 0 ≤ cd_Count c) negativeEntry ∧
  ∃ r,
    snapshots (writeFingerprintToChannel range_sorted (newPlugin negativeEntry 30)).2 = [r] ∧
    snapshots (fingerprintLoop range_sorted [ticker_C; ticker_C; ticker_C; ctx_Done]
                 (newPlugin negativeEntry 30)).1.2 = [r] ∧
    (fingerprintLoop range_sorted [ticker_C; ticker_C; ticker_C; ctx_Done]
       (newPlugin negativeEntry 30)).1.1 =
      (writeFingerprintToChannel range_sorted (newPlugin negativeEntry 30)).1.
Proof.
  assert (identifiedDevices (newPlugin negativeEntry 30) = ∅) as He by reflexivity.
  assert (Exists (λ c, 0 ≤ cd_Count c) negativeEntry) as Hex
    by (apply Exists_cons_hd; simpl; lia).
  split_and!; [exact He | exact Hex |].
  exact (discovery_sends_exactly_once range_sorted (newPlugin negativeEntry 30)
           [ticker_C; ticker_C; ctx_Done] He Hex).
Defined.

Lemma onlyNegative_sends_empty_snapshots :
  identifiedDevices (newPlugin onlyNegative 30) = ∅ ∧
  Forall (λ c, cd_Count c < 0) onlyNegative ∧
  writeFingerprintToChannel range_sorted (newPlugin onlyNegative 30) =
    (newPlugin onlyNegative 30, [LogInfo "Found devices" 0; ChanSend (NewFingerprint [])]) ∧
  ∀ n, snapshots (fingerprintLoop range_sorted (replicate n ticker_C)
                    (newPlugin onlyNegative 30)).1.2 =
         replicate n (NewFingerprint []) ∧
       (fingerprintLoop range_sorted (replicate n ticker_C) (newPlugin onlyNegative 30)).1.1 =
         newPlugin onlyNegative 30.
Proof.
  assert (identifiedDevices (newPlugin onlyNegative 30) = ∅) as He by reflexivity.
  assert (Forall (λ c, cd_Count c < 0) onlyNegative) as Hneg
    by (repeat (apply Forall_cons_2; [simpl; lia|]); apply Forall_nil_2).
  split_and!; [exact He | exact Hneg | ..];
    apply (negative_counts_send_empty_snapshots range_sorted range_sorted_valid
             (newPlugin onlyNegative 30) He Hneg).
Defined.

Lemma sorted_and_reversed_agree :
  range_valid range_sorted ∧
  range_valid range_reversed ∧
  (doFingerprint range_sorted [ticker_C; ticker_C; ctx_Done] (newPlugin negativeEntry 30)).1.1 =
    (doFingerprint range_reversed [ticker_C; ticker_C; ctx_Done] (newPlugin negativeEntry 30)).1.1 ∧
  (doFingerprint range_sorted [ticker_C; ticker_C; ctx_Done] (newPlugin negativeEntry 30)).2 =
    (doFingerprint range_reversed [ticker_C; ticker_C; ctx_Done] (newPlugin negativeEntry 30)).2 ∧
  Forall2 same_up_to_group_order
    (doFingerprint range_sorted [ticker_C; ticker_C; ctx_Done] (newPlugin negativeEntry 30)).1.2
    (doFingerprint range_reversed [ticker_C; ticker_C; ctx_Done] (newPlugin negativeEntry 30)).1.2.
Proof.
  split; [exact range_sorted_valid|]. split; [exact range_reversed_valid|].
  exact (range_order_only_permutes_groups range_sorted range_reversed
           [ticker_C; ticker_C; ctx_Done] (newPlugin negativeEntry 30)
           range_sorted_valid range_reversed_valid).
Defined.
